(** * Verification of the stream-scout clip detector pipeline

    Shallow embedding of
    - [AnomalyDetector.process_element]   (services/flink-job/clip_detector_job.py)
    - [TwitchAPIClient.create_clip] / [get_clip] and [ClipCreator.process_element]
    - [CommandFilter.process_element]
    - [StreamMonitoringService.poll_top_streams] / [_manage_chat_connections]
      (services/stream-monitoring/stream_monitoring_service.py)
    - [TokenManager.load_tokens] / [save_tokens]
      (services/stream-monitoring/token_manager.py) *)

From Stdlib Require Import ZArith QArith List String Ascii Bool Lia.
From stdpp Require Import base gmap strings list fin_maps.

Open Scope Z_scope.

(* ================================================================== *)
(** * Spike detector *)
(* ================================================================== *)

Module Detector.

Definition WINDOW_SIZE_SECONDS : Z := 5.
Definition BASELINE_WINDOW_SECONDS : Z := 300.
Definition COOLDOWN_SECONDS : Z := 30.
(** [STD_DEV_THRESHOLD = 1.0]: the threshold is [mean + 1.0 * std_dev]. *)

(** [min_required = int(BASELINE_WINDOW_SECONDS * 0.8)] = 240. *)
Definition min_required : nat := 240.

(** Keyed state of one broadcaster: the [message_counts] MapState
    (bucket -> count) and the [last_anomaly_time] ValueState. *)
Record det_state := {
  message_counts : gmap Z Z;
  last_anomaly_time : option Z
}.

Definition det_init : det_state :=
  {| message_counts := ∅; last_anomaly_time := None |}.

(** The JSON anomaly yielded by the operator.  [baseline_var] is the
    sample variance; the source reports its square root [baseline_std]. *)
Record anomaly := {
  a_broadcaster_id : Z;
  a_detected_at : Z;
  a_message_count : Z;
  a_baseline_mean : Q;
  a_baseline_var : Q
}.

(** [statistics.mean] and the square of [statistics.stdev], computed
    exactly over the rationals (the source uses floats). *)
Definition sumQ (xs : list Z) : Q := fold_right (fun x acc => inject_Z x + acc)%Q 0%Q xs.

Definition meanQ (xs : list Z) : Q := (sumQ xs / inject_Z (Z.of_nat (length xs)))%Q.

Definition varQ (xs : list Z) : Q :=
  let m := meanQ xs in
  (fold_right (fun x acc => (inject_Z x - m) * (inject_Z x - m) + acc) 0 xs
     / inject_Z (Z.of_nat (length xs) - 1))%Q.

(** [window_sum > mean + STD_DEV_THRESHOLD * std_dev and std_dev > 0],
    with [std_dev = sqrt var], decided without the square root:
    [ws > m + sqrt v /\ sqrt v > 0  <->  v > 0 /\ ws - m > 0 /\ (ws - m)^2 > v]. *)
Definition Qltb (a b : Q) : bool := negb (Qle_bool b a).

Definition exceeds (ws : Z) (m v : Q) : bool :=
  Qltb 0 v && Qltb m (inject_Z ws)
  && Qltb v ((inject_Z ws - m) * (inject_Z ws - m)).

(** One call of [process_element] for a message with [timestamp]
    (ms) processed at wall-clock second [current_time = int(time.time())].
    Returns the new keyed state and the yielded anomalies. *)
Definition process_element (bid : Z) (timestamp current_time : Z) (st : det_state)
  : det_state * list anomaly :=
  let bucket := timestamp `div` 1000 in
  let current_count := default 0 (message_counts st !! bucket) in
  let counts1 := <[bucket := current_count + 1]> (message_counts st) in
  let baseline_start := current_time - BASELINE_WINDOW_SECONDS in
  let window_start := current_time - WINDOW_SIZE_SECONDS in
  (* buckets older than baseline_start are removed; all others are kept
     and counted in the baseline, those >= window_start also in the window *)
  let counts2 := filter (fun kv : Z * Z => baseline_start <= kv.1) counts1 in
  let counts_baseline := (map_to_list counts2).*2 in
  let counts_window :=
    (map_to_list (filter (fun kv : Z * Z => window_start <= kv.1) counts2)).*2 in
  let st2 := {| message_counts := counts2; last_anomaly_time := last_anomaly_time st |} in
  if (length counts_baseline <? min_required)%nat then (st2, [])
  else if negb (2 <=? length counts_baseline)%nat then (st2, [])
  else
    let mean := meanQ counts_baseline in
    let var := varQ counts_baseline in
    let window_sum := fold_right Z.add 0 counts_window in
    if exceeds window_sum mean var then
      let current_ms := current_time * 1000 in
      let cooled := match last_anomaly_time st with
                    | None => true
                    | Some last => COOLDOWN_SECONDS * 1000 <? current_ms - last
                    end in
      if cooled then
        ({| message_counts := counts2; last_anomaly_time := Some current_ms |},
         [{| a_broadcaster_id := bid; a_detected_at := current_ms;
             a_message_count := window_sum; a_baseline_mean := mean;
             a_baseline_var := var |}])
      else (st2, [])
    else (st2, []).

(** The keyed operator: one [det_state] per broadcaster id, created
    empty on the first message of the key. *)
Definition keyed_state := gmap Z det_state.

Definition keyed_step (ks : gmap Z det_state) (bid timestamp current_time : Z)
  : gmap Z det_state * list anomaly :=
  let st := default det_init (ks !! bid) in
  let '(st', out) := process_element bid timestamp current_time st in
  (<[bid := st']> ks, out).

(** A message as seen by the keyed operator: (broadcaster_id,
    timestamp ms, wall-clock second at which it is processed). *)
Record input := { in_bid : Z; in_ts : Z; in_now : Z }.

Fixpoint run (ks : gmap Z det_state) (xs : list input) : gmap Z det_state * list anomaly :=
  match xs with
  | [] => (ks, [])
  | x :: xs' =>
      let '(ks1, out1) := keyed_step ks (in_bid x) (in_ts x) (in_now x) in
      let '(ks2, out2) := run ks1 xs' in
      (ks2, out1 ++ out2)
  end.

(** Detection times of the anomalies yielded for broadcaster [c]. *)
Definition emitted_at (c : Z) (out : list anomaly) : list Z :=
  map a_detected_at (List.filter (fun a => a_broadcaster_id a =? c) out).

(** The cooldown value of key [c] in the keyed state. *)
Definition last_of (ks : gmap Z det_state) (c : Z) : option Z :=
  last_anomaly_time (default det_init (ks !! c)).

(** [t] lies in the closed wall-clock interval [[w, w + 30000]] (ms). *)
Definition in_window (w t : Z) : bool := (w <=? t) && (t <=? w + COOLDOWN_SECONDS * 1000).

(** Successive detection times, each more than the cooldown after the
    previous one (or after [lo], the stored [last_anomaly_time]). *)
Fixpoint spaced (lo : option Z) (ts : list Z) : Prop :=
  match ts with
  | [] => True
  | t :: ts' =>
      match lo with None => True | Some l => COOLDOWN_SECONDS * 1000 < t - l end
      /\ spaced (Some t) ts'
  end.

(** Shape of one step: either nothing is yielded and the cooldown value is
    unchanged, or exactly one anomaly of the key is yielded, at
    [current_time * 1000], when the cooldown allowed it, and it becomes the
    new cooldown value. *)
Definition step_shape (bid now : Z) (st st' : det_state) (out : list anomaly) : Prop :=
  (out = [] /\ last_anomaly_time st' = last_anomaly_time st)
  \/ (exists a, out = [a] /\ a_broadcaster_id a = bid /\ a_detected_at a = now * 1000
        /\ last_anomaly_time st' = Some (now * 1000)
        /\ match last_anomaly_time st with
           | None => True
           | Some l => COOLDOWN_SECONDS * 1000 < now * 1000 - l
           end).

(** Number of retained buckets counted in the baseline: after the
    message's bucket is added, every bucket with key [>= current_time - 300]. *)
Definition baseline_buckets (timestamp current_time : Z) (st : det_state) : nat :=
  let bucket := timestamp `div` 1000 in
  let counts1 := <[bucket := default 0 (message_counts st !! bucket) + 1]> (message_counts st) in
  size (filter (fun kv : Z * Z => current_time - BASELINE_WINDOW_SECONDS <= kv.1) counts1).

(** The quantity the warm-up sentence of the spec speaks of: buckets whose
    key lies inside [[current_time - 300, current_time]] once the message's
    bucket is added. *)
Definition buckets_inside_window (timestamp current_time : Z) (st : det_state) : nat :=
  let bucket := timestamp `div` 1000 in
  let counts1 := <[bucket := default 0 (message_counts st !! bucket) + 1]> (message_counts st) in
  size (filter (fun kv : Z * Z => current_time - BASELINE_WINDOW_SECONDS <= kv.1
                                  /\ kv.1 <= current_time) counts1).

(** A channel whose chat lines are stamped by a clock running one second
    ahead of the detector's: 239 lines in the past seconds 761..999 and one
    line stamped 1001, all processed at wall second 1000. *)
Definition skewed_prefix : list input :=
  map (fun k => {| in_bid := 7; in_ts := (761 + Z.of_nat k) * 1000; in_now := 1000 |}) (seq 0 239)
  ++ [{| in_bid := 7; in_ts := 1001000; in_now := 1000 |}].

(** A channel with one message in each of the seconds 700..999. *)
Definition steady_state : det_state :=
  {| message_counts := list_to_map (map (fun k => (700 + Z.of_nat k, 1)) (seq 0 300));
     last_anomaly_time := None |}.

(** A burst of 50 messages in each of the seconds 997 and 998 over a
    history of one message per second, starting at second [first]. *)
Definition burst_state (first : Z) (n : nat) : det_state :=
  {| message_counts := <[997 := 50]> (<[998 := 50]>
       (list_to_map (map (fun k => (first + Z.of_nat k, 1)) (seq 0 n))));
     last_anomaly_time := None |}.

(** The burst after only 200 seconds of history (800..999): warming up. *)
Definition warmup_burst_state : det_state := burst_state 800 200.

(** The same burst after 300 seconds of history (700..999). *)
Definition full_burst_state : det_state := burst_state 700 300.

End Detector.

(* ================================================================== *)
(** * Twitch API client, token file and clip creator *)
(* ================================================================== *)

Module Twitch.

(** A scalar JSON field as read by [dict.get]: absent, [null], or a string. *)
Inductive jvalue := JAbsent | JNull | JStr (s : string).

(** One element of the ["data"] array of a Helix clips reply. *)
Record clip_item := {
  ci_id : jvalue;
  ci_embed_url : jvalue;
  ci_thumbnail_url : jvalue;
  ci_other_keys : bool   (* the object has keys besides these three *)
}.

(** Python truthiness of the item dict. *)
Definition item_truthy (it : clip_item) : bool :=
  match ci_id it, ci_embed_url it, ci_thumbnail_url it with
  | JAbsent, JAbsent, JAbsent => ci_other_keys it
  | _, _, _ => true
  end.

(** The top-level JSON object of a reply, restricted to the keys the code
    reads.  [b_data = None] when ["data"] is absent or [null]. *)
Record body := {
  b_data : option (list clip_item);
  b_access_token : jvalue;
  b_refresh_token : jvalue
}.

Inductive payload := PMalformed | PObj (b : body).

(** What the network does with one [requests] call. *)
Inductive http_outcome :=
  | Reply (status : Z) (p : payload)
  | RTimeout
  | RConnError.

(** Python exceptions that cross the modelled code. *)
Inductive exc :=
  | ETimeout                        (* requests.exceptions.Timeout *)
  | EConnection                     (* requests.exceptions.ConnectionError *)
  | EHTTPError (status : Z)         (* raise_for_status *)
  | EJSONDecode                     (* response.json() on a malformed body *)
  | EKey                            (* KeyError *)
  | EType                           (* TypeError *)
  | EDatabase                       (* psycopg2 error *)
  | ETwitchAPI (status : Z) (is_retryable : bool).

(** The JSON record of the token file. *)
Record token_data := {
  td_access_token : option string;
  td_refresh_token : option string;
  td_scopes : list string;
  td_updated_at : option string
}.

(** Content of the token file: an empty file (just truncated), bytes that
    are not JSON, or a complete JSON record. *)
Inductive ftext := FEmpty | FGarbage | FJson (d : token_data).

(** Catalog row of the [clips] table. *)
Record clip_row := {
  r_broadcaster_id : Z;
  r_clip_id : string;
  r_embed_url : option string;
  r_thumbnail_url : option string;
  r_detected_at : Z
}.

(** Observable effects, in order. *)
Inductive event :=
  | EvCreateClip (broadcaster_id : Z)     (* "Calling Twitch create clip API" *)
  | EvPostClips (token : option string)   (* POST helix/clips *)
  | EvGetClips (token : option string)    (* GET helix/clips *)
  | EvPostToken (refresh : option string) (* POST oauth2/token *)
  | EvSleep (secs : Z)
  | EvInsert (row : clip_row).

(** State of a [ClipCreator] worker: the client's tokens, the token
    file, the catalog, and the environment's scripted network replies
    (consumed one per HTTP call; when exhausted the network is down). *)
Record env := {
  access_token : option string;
  refresh_token : option string;
  token_file : option ftext;
  catalog : list clip_row;
  db_up : bool;
  wall_iso : string;
  script : list http_outcome;
  trace : list event
}.

(** ** State and exception monad *)

Definition M (A : Type) : Type := env -> (exc + A) * env.

Definition ret {A} (x : A) : M A := fun s => (inr x, s).
Definition raise {A} (e : exc) : M A := fun s => (inl e, s).
Definition bind {A B} (m : M A) (k : A -> M B) : M B :=
  fun s => match m s with
           | (inl e, s') => (inl e, s')
           | (inr x, s') => k x s'
           end.
(** [try: m except e: h(e)] *)
Definition catch {A} (m : M A) (h : exc -> M A) : M A :=
  fun s => match m s with
           | (inl e, s') => h e s'
           | (inr x, s') => (inr x, s')
           end.

Notation "'let*' x ':=' m 'in' k" := (bind m (fun x => k))
  (at level 200, x name, m at level 100, k at level 200).

Definition get : M env := fun s => (inr s, s).
Definition put (s : env) : M unit := fun _ => (inr tt, s).

Definition emit (ev : event) : M unit :=
  fun s => (inr tt, {| access_token := access_token s; refresh_token := refresh_token s;
                      token_file := token_file s; catalog := catalog s; db_up := db_up s;
                      wall_iso := wall_iso s; script := script s;
                      trace := trace s ++ [ev] |}).

Definition set_tokens (a r : option string) : M unit :=
  fun s => (inr tt, {| access_token := a; refresh_token := r;
                      token_file := token_file s; catalog := catalog s; db_up := db_up s;
                      wall_iso := wall_iso s; script := script s; trace := trace s |}).

Definition set_file (f : option ftext) : M unit :=
  fun s => (inr tt, {| access_token := access_token s; refresh_token := refresh_token s;
                      token_file := f; catalog := catalog s; db_up := db_up s;
                      wall_iso := wall_iso s; script := script s; trace := trace s |}).

Definition set_catalog (c : list clip_row) : M unit :=
  fun s => (inr tt, {| access_token := access_token s; refresh_token := refresh_token s;
                      token_file := token_file s; catalog := c; db_up := db_up s;
                      wall_iso := wall_iso s; script := script s; trace := trace s |}).

Definition next_outcome : M http_outcome :=
  fun s => match script s with
           | [] => (inr RConnError, s)
           | o :: rest =>
               (inr o, {| access_token := access_token s; refresh_token := refresh_token s;
                          token_file := token_file s; catalog := catalog s; db_up := db_up s;
                          wall_iso := wall_iso s; script := rest; trace := trace s |})
           end.

(** One [requests.post]/[requests.get] call: logs it, consumes the next
    scripted outcome, raises on timeout and connection failure. *)
Definition request (ev : event) : M (Z * payload) :=
  let* _ := emit ev in
  let* o := next_outcome in
  match o with
  | Reply st p => ret (st, p)
  | RTimeout => raise ETimeout
  | RConnError => raise EConnection
  end.

(** [response.json()] *)
Definition json (p : payload) : M body :=
  match p with PMalformed => raise EJSONDecode | PObj b => ret b end.

Definition sleep (secs : Z) : M unit := emit (EvSleep secs).

(** ** Token file operations *)

(** Writes a [with open(path, "w") as f: json.dump(data, f)] block
    performs on the file: the open truncates, the dump writes the record. *)
Inductive fs_op := OpenW | Dump (d : token_data).

Definition apply_fs_op (f : option ftext) (op : fs_op) : option ftext :=
  match op with
  | OpenW => Some FEmpty
  | Dump d => Some (FJson d)
  end.

Definition apply_fs_ops (f : option ftext) (ops : list fs_op) : option ftext :=
  fold_left apply_fs_op ops f.

Definition jopt (v : jvalue) : option string :=
  match v with JStr s => Some s | _ => None end.

(** [TwitchAPIClient._save_tokens]: read the file, overwrite the two
    tokens and [updated_at], write it back; every error is logged and
    swallowed ([None]: nothing is written). *)
Definition client_save_ops (s : env) : option (list fs_op) :=
  match token_file s with
  | Some (FJson d) =>
      let d' := {| td_access_token := access_token s; td_refresh_token := refresh_token s;
                   td_scopes := td_scopes d; td_updated_at := Some (wall_iso s) |} in
      Some [OpenW; Dump d']
  | _ => None   (* FileNotFoundError / JSONDecodeError, logged *)
  end.

Definition save_tokens_client : M unit :=
  let* s := get in
  match client_save_ops s with
  | Some ops => set_file (apply_fs_ops (token_file s) ops)
  | None => ret tt
  end.

(** ** [TwitchAPIClient] *)

Definition RETRYABLE_STATUS_CODES : list Z := [408; 429; 500; 502; 503; 504].

Definition is_retryable_status (status_code : Z) : bool :=
  existsb (Z.eqb status_code) RETRYABLE_STATUS_CODES.

(** [response.raise_for_status()] raises for 4xx and 5xx. *)
Definition raise_for_status (st : Z) : M unit :=
  if (400 <=? st) && (st <? 600) then raise (EHTTPError st) else ret tt.

Definition refresh_access_token : M unit :=
  let* s := get in
  let* r := request (EvPostToken (refresh_token s)) in
  let* _ := (if negb (fst r =? 200) then raise_for_status (fst r) else ret tt) in
  let* data := json (snd r) in
  match b_access_token data with
  | JAbsent => raise EKey                               (* data["access_token"] *)
  | a =>
      let r' := match b_refresh_token data with
                | JAbsent => refresh_token s             (* .get default *)
                | v => jopt v
                end in
      let* _ := set_tokens (jopt a) r' in
      save_tokens_client
  end.

(** [data["data"][0]["id"]] *)
Definition clip_id_of (it : clip_item) : M (option string) :=
  match ci_id it with
  | JAbsent => raise EKey
  | JNull => ret None
  | JStr c => ret (Some c)
  end.

Definition create_clip_body (tok : option string) : M (option string) :=
  let* r := request (EvPostClips tok) in
  let '(st, p) := r in
  if st =? 202 then
    let* data := json p in
    match b_data data with
    | Some (it :: _) => clip_id_of it
    | _ => ret None                          (* "202 but no data" *)
    end
  else if st =? 401 then
    let* _ := refresh_access_token in
    let* s2 := get in
    let* r2 := request (EvPostClips (access_token s2)) in
    let '(st2, p2) := r2 in
    if st2 =? 202 then
      let* data := json p2 in
      match b_data data with
      | Some (it :: _) => clip_id_of it
      | _ => raise (ETwitchAPI st2 false)
      end
    else raise (ETwitchAPI st2 false)       (* still failing after refresh *)
  else raise (ETwitchAPI st (is_retryable_status st)).

Definition create_clip_handler (e : exc) : M (option string) :=
  match e with
  | ETwitchAPI _ _ => raise e
  | ETimeout => raise (ETwitchAPI 408 true)
  | EConnection => raise (ETwitchAPI 0 true)
  | _ => raise (ETwitchAPI 0 false)
  end.

Definition create_clip (broadcaster_id : Z) : M (option string) :=
  let* _ := emit (EvCreateClip broadcaster_id) in
  let* s := get in
  catch (create_clip_body (access_token s)) create_clip_handler.

Definition get_clip_body (tok : option string) : M (option clip_item) :=
  let* r := request (EvGetClips tok) in
  let '(st, p) := r in
  if st =? 200 then
    let* data := json p in
    match b_data data with
    | Some (it :: _) =>
        (* the log line slices data[0].get('embed_url', 'N/A')[:50] *)
        match ci_embed_url it with
        | JNull => raise EType
        | _ => ret (Some it)
        end
    | _ => ret None
    end
  else if st =? 401 then
    let* _ := refresh_access_token in
    let* s2 := get in
    let* r2 := request (EvGetClips (access_token s2)) in
    let '(st2, p2) := r2 in
    if st2 =? 200 then
      let* data := json p2 in
      match b_data data with
      | Some (it :: _) => ret (Some it)
      | _ => ret None
      end
    else ret None
  else ret None.

Definition get_clip (clip_id : string) : M (option clip_item) :=
  let* s := get in
  catch (get_clip_body (access_token s)) (fun _ => ret None).

(** ** [PostgresClient.insert_clip]: [ON CONFLICT (clip_id) DO NOTHING]. *)
Definition insert_clip (row : clip_row) : M unit :=
  let* s := get in
  if db_up s then
    let* _ := emit (EvInsert row) in
    if existsb (fun r => String.eqb (r_clip_id r) (r_clip_id row)) (catalog s)
    then ret tt
    else set_catalog (catalog s ++ [row])
  else raise EDatabase.

(** ** [ClipCreator.process_element] *)

Definition RETRY_DELAYS : list Z := [0; 3; 6].

Record anomaly_in := { an_broadcaster_id : Z; an_detected_at : Z }.

(** Run [m] and return its exception or value: a [try] whose handler
    inspects the exception. *)
Definition attempt {A} (m : M A) : M (exc + A) :=
  fun s => let '(r, s') := m s in (inr r, s').

(** [if clip_id:] *)
Definition truthy_id (c : option string) : bool :=
  match c with Some s => negb (String.eqb s EmptyString) | None => false end.

Fixpoint retry_loop (delays : list Z) (broadcaster_id : Z) (clip_id : option string)
  : M (option string) :=
  match delays with
  | [] => ret clip_id
  | delay :: ds =>
      let* _ := (if 0 <? delay then sleep delay else ret tt) in
      let* r := attempt (create_clip broadcaster_id) in
      match r with
      | inr c => if truthy_id c then ret c else retry_loop ds broadcaster_id c
      | inl (ETwitchAPI _ true) => retry_loop ds broadcaster_id clip_id
      | inl _ => ret clip_id            (* non-retryable / unexpected: break *)
      end
  end.

Definition jget_default (v : jvalue) (dflt : string) : option string :=
  match v with JAbsent => Some dflt | JNull => None | JStr s => Some s end.

(** The part after a clip id was obtained: wait, fetch, store, yield. *)
Definition store_clip (broadcaster_id detected_at : Z) (clip_id : string) : M (list clip_row) :=
  let* _ := sleep 15 in
  let* clip_data := get_clip clip_id in
  match clip_data with
  | Some it =>
      if item_truthy it then
        let row := {| r_broadcaster_id := broadcaster_id; r_clip_id := clip_id;
                      r_embed_url := jget_default (ci_embed_url it) EmptyString;
                      r_thumbnail_url := jget_default (ci_thumbnail_url it) EmptyString;
                      r_detected_at := detected_at |} in
        let* _ := insert_clip row in
        ret [row]
      else ret []                               (* METADATA RETRIEVAL FAILED *)
  | None => ret []
  end.

Definition process_element (a : anomaly_in) : M (list clip_row) :=
  catch
    (let* clip_id := retry_loop RETRY_DELAYS (an_broadcaster_id a) None in
     match clip_id with
     | Some c => if String.eqb c EmptyString then ret []
                 else store_clip (an_broadcaster_id a) (an_detected_at a) c
     | None => ret []                          (* CLIP CREATION FAILED *)
     end)
    (fun _ => ret []).

(** ** The clip creator as the spec describes it (for comparison)

    Up to three attempts, before them waits of 0 s, 3 s and 6 s; a
    non-empty clip id wins, a permanent error aborts, anything else goes
    on to the next attempt; the wait, fetch and store only follow a win. *)
Inductive attempt_class := Won (c : string) | Permanent | Transient.

Definition classify (r : exc + option string) : attempt_class :=
  match r with
  | inr (Some c) => if String.eqb c EmptyString then Transient else Won c
  | inr None => Transient
  | inl (ETwitchAPI _ true) => Transient
  | inl _ => Permanent
  end.

Definition spec_create_attempts (broadcaster_id : Z) : M (option string) :=
  let* r1 := attempt (create_clip broadcaster_id) in
  match classify r1 with
  | Won c => ret (Some c)
  | Permanent => ret None
  | Transient =>
      let* _ := sleep 3 in
      let* r2 := attempt (create_clip broadcaster_id) in
      match classify r2 with
      | Won c => ret (Some c)
      | Permanent => ret None
      | Transient =>
          let* _ := sleep 6 in
          let* r3 := attempt (create_clip broadcaster_id) in
          match classify r3 with
          | Won c => ret (Some c)
          | _ => ret None
          end
      end
  end.

(** The same program read as a loop over the delay schedule. *)
Fixpoint spec_attempts_from (delays : list Z) (broadcaster_id : Z) : M (option string) :=
  match delays with
  | [] => ret None
  | d :: ds =>
      let* _ := (if 0 <? d then sleep d else ret tt) in
      let* r := attempt (create_clip broadcaster_id) in
      match classify r with
      | Won c => ret (Some c)
      | Permanent => ret None
      | Transient => spec_attempts_from ds broadcaster_id
      end
  end.

Definition spec_process_anomaly (a : anomaly_in) : M (list clip_row) :=
  catch
    (let* won := spec_create_attempts (an_broadcaster_id a) in
     match won with
     | Some c => store_clip (an_broadcaster_id a) (an_detected_at a) c
     | None => ret []
     end)
    (fun _ => ret []).

(** Number of [create_clip] calls in a trace. *)
Definition count_create_calls (tr : list event) : nat :=
  length (List.filter (fun ev => match ev with EvCreateClip _ => true | _ => false end) tr).

(** Continuations after the attempts, in the code and in the spec program. *)
Definition after_loop (broadcaster_id detected_at : Z) (clip_id : option string)
  : M (list clip_row) :=
  match clip_id with
  | Some c => if String.eqb c EmptyString then ret []
              else store_clip broadcaster_id detected_at c
  | None => ret []
  end.

Definition after_attempts (broadcaster_id detected_at : Z) (won : option string)
  : M (list clip_row) :=
  match won with
  | Some c => store_clip broadcaster_id detected_at c
  | None => ret []
  end.

Definition is_create (ev : event) : bool :=
  match ev with EvCreateClip _ => true | _ => false end.

Definition is_insert (ev : event) : bool :=
  match ev with EvInsert _ => true | _ => false end.

Definition any_event (_ : event) : bool := true.

(** Events the create attempts may produce: the create calls, their HTTP
    requests and the 3 s and 6 s retry waits. *)
Definition attempt_event (ev : event) : bool :=
  match ev with
  | EvCreateClip _ | EvPostClips _ | EvPostToken _ => true
  | EvSleep d => (d =? 3) || (d =? 6)
  | _ => false
  end.

(** Effect footprint of a computation: it only appends to the trace,
    with at most [n] create calls, only events satisfying [P], and leaves
    the catalog alone unless it issued an INSERT. *)
Definition eff (P : event -> bool) (n : nat) {A} (m : M A) : Prop :=
  forall s, exists tl,
    trace (snd (m s)) = trace s ++ tl
    /\ (count_create_calls tl <= n)%nat
    /\ forallb P tl = true
    /\ (existsb is_insert tl = false -> catalog (snd (m s)) = catalog s).

(** [o] is a reply with status [n]. *)
Definition is_status (n : Z) (o : http_outcome) : Prop :=
  match o with Reply st _ => st = n | _ => False end.

(** [o] is a 200 reply whose ["data"] array is non-empty and starts with [it]. *)
Definition data_head_is (it : clip_item) (o : http_outcome) : Prop :=
  match o with
  | Reply st (PObj b) => st = 200 /\ exists l, b_data b = Some (it :: l)
  | _ => False
  end.

(** The network served [it]: either the first request got a 200 reply
    with [it] first in its ["data"], or it got a 401 and the request
    following the token refresh did. *)
Definition served_clip (it : clip_item) (sc : list http_outcome) : Prop :=
  match sc with
  | o1 :: rest =>
      data_head_is it o1
      \/ (is_status 401 o1 /\ match rest with _ :: o3 :: _ => data_head_is it o3 | _ => False end)
  | [] => False
  end.

(** ** Script consumption

    [consumes n m]: when [m] succeeds it has taken exactly [n] scripted
    replies off the front of the network script. *)
Definition consumes (n : nat) {A} (m : M A) : Prop :=
  forall s x s', m s = (inr x, s') -> exists pre, length pre = n /\ script s = pre ++ script s'.

(** ** Weighted trace footprint

    [bounded w k m]: [m] only appends to the trace, and the events it
    appends weigh at most [k] in total. *)
Definition wsum (w : event -> Z) (tl : list event) : Z :=
  fold_right (fun ev acc => w ev + acc) 0 tl.

Definition bounded (w : event -> Z) (k : Z) {A} (m : M A) : Prop :=
  forall s, exists tl, trace (snd (m s)) = trace s ++ tl /\ wsum w tl <= k.

Definition ind (b : bool) : Z := if b then 1 else 0.

Definition is_post_clips (ev : event) : bool :=
  match ev with EvPostClips _ => true | _ => false end.
Definition is_post_token (ev : event) : bool :=
  match ev with EvPostToken _ => true | _ => false end.
Definition is_get_clips (ev : event) : bool :=
  match ev with EvGetClips _ => true | _ => false end.

(** Seconds slept by an event. *)
Definition sleep_secs (ev : event) : Z :=
  match ev with EvSleep d => d | _ => 0 end.

(** The waits [retry_loop] performs over a delay schedule: only the
    positive delays are slept. *)
Definition positive_delays (ds : list Z) : Z :=
  fold_right (fun d acc => (if 0 <? d then d else 0) + acc) 0 ds.

(** Weights counting the requests of one kind: clip creations
    ([POST helix/clips]), token refreshes ([POST oauth2/token]) and clip
    fetches ([GET helix/clips]). *)
Definition clip_posts (ev : event) : Z := ind (is_post_clips ev).
Definition token_posts (ev : event) : Z := ind (is_post_token ev).
Definition clip_gets (ev : event) : Z := ind (is_get_clips ev).

(** The [clip_id] column of the catalog (the conflict key of [insert_clip]). *)
Definition clip_ids (c : list clip_row) : list string := map r_clip_id c.

(** [m] leaves the catalog as it found it. *)
Definition keeps_catalog {A} (m : M A) : Prop := forall s, catalog (snd (m s)) = catalog s.

(** [m] appends at most one row to the catalog, a row satisfying [P], and
    keeps the clip ids unique. *)
Definition appends_row (P : clip_row -> Prop) {A} (m : M A) : Prop :=
  forall s, exists tl, catalog (snd (m s)) = catalog s ++ tl
    /\ (tl = [] \/ exists r, tl = [r] /\ P r)
    /\ (NoDup (clip_ids (catalog s)) -> NoDup (clip_ids (catalog (snd (m s))))).

(** ** Concrete environments used by the examples *)

Definition sample_file : token_data :=
  {| td_access_token := Some "old"%string; td_refresh_token := Some "r0"%string;
     td_scopes := ["clips:edit"%string]; td_updated_at := None |}.

(** A worker holding access token "old" and refresh token "r0", facing
    the scripted replies [sc]. *)
Definition sample_env (sc : list http_outcome) : env :=
  {| access_token := Some "old"%string; refresh_token := Some "r0"%string;
     token_file := Some (FJson sample_file); catalog := []; db_up := true;
     wall_iso := "2026-10-15T00:00:00+00:00"%string; script := sc; trace := [] |}.

(** A token endpoint reply carrying a new access token "new". *)
Definition refresh_reply : http_outcome :=
  Reply 200 (PObj {| b_data := None; b_access_token := JStr "new"%string;
                     b_refresh_token := JAbsent |}).

End Twitch.

(* ================================================================== *)
(** * Command pre-filter: [CommandFilter]
    (src/services/flink-job/clip_detector_job.py) *)
(* ================================================================== *)

Module Commands.

(** [[a-zA-Z0-9]] *)
Definition is_alnum (c : ascii) : bool :=
  let n := nat_of_ascii c in
  (((48 <=? n) && (n <=? 57)) || ((65 <=? n) && (n <=? 90)) || ((97 <=? n) && (n <=? 122)))%nat.

(** [COMMAND_PATTERN.match(text)] succeeds, with
    [COMMAND_PATTERN = re.compile(r"^![a-zA-Z0-9]+")]: a ['!'] followed by
    at least one ASCII letter or digit at the start of [text]. *)
Definition command_match (text : string) : bool :=
  match text with
  | String c (String d _) => Ascii.eqb c "!"%char && is_alnum d
  | _ => false
  end.

(** The ["text"] member of a decoded message. *)
Inductive jtext := TStr (s : string) | TAbsent | TOther.

(** A raw Kafka value: JSON decoding to an object whose ["text"] member
    is [text], JSON decoding to something other than an object (an array,
    a number, a string, [true], [false] or [null]), or undecodable bytes. *)
Inductive value := VJson (text : jtext) | VNonObject | VMalformed.

(** [CommandFilter.process_element]: the values it yields, or [None] when
    an exception escapes ([msg.get] on a decoded non-object raises
    [AttributeError], [re.match] on a non-string raises [TypeError]; only
    [JSONDecodeError] is caught). *)
Definition process_element (v : value) : option (list value) :=
  match v with
  | VMalformed => Some []
  | VNonObject => None
  | VJson t =>
      let text := match t with TStr s => Some s | TAbsent => Some EmptyString | TOther => None end in
      match text with
      | None => None
      | Some s => if negb (command_match s) then Some [v] else Some []
      end
  end.

(** The operator applied to a stream of values, in order. *)
Fixpoint command_filter (vs : list value) : option (list value) :=
  match vs with
  | [] => Some []
  | v :: vs' =>
      match process_element v, command_filter vs' with
      | Some out, Some rest => Some (out ++ rest)
      | _, _ => None
      end
  end.

(** A chat line as the stream monitor publishes it: its ["text"] is a string. *)
Definition chat_line (text : string) : value := VJson (TStr text).

End Commands.

(* ================================================================== *)
(** * Credential store: [TokenManager]
    (src/services/stream-monitoring/token_manager.py) *)
(* ================================================================== *)

Module TokenManager.
Import Twitch.

(** The in-memory fields of a [TokenManager]. *)
Record token_manager := {
  tm_access_token : option string;
  tm_refresh_token : option string;
  tm_scopes : list string
}.

Definition tm_init : token_manager :=
  {| tm_access_token := None; tm_refresh_token := None; tm_scopes := [] |}.

Inductive load_error := FileNotFoundError | JSONDecodeError | ValueError.

(** Python truthiness of an optional string. *)
Definition truthy (o : option string) : bool :=
  match o with Some s => negb (String.eqb s EmptyString) | None => false end.

(** [TokenManager.load_tokens] on the file content [f] ([None]: no file). *)
Definition load_tokens (f : option ftext) (tm : token_manager)
    : (load_error + (string * string * list string)) * token_manager :=
  match f with
  | None => (inl FileNotFoundError, tm)
  | Some FEmpty | Some FGarbage => (inl JSONDecodeError, tm)   (* json.load raises *)
  | Some (FJson d) =>
      let tm' := {| tm_access_token := td_access_token d;
                    tm_refresh_token := td_refresh_token d;
                    tm_scopes := td_scopes d |} in
      match td_access_token d, td_refresh_token d with
      | Some a, Some r =>
          if truthy (Some a) && truthy (Some r) then (inr (a, r, td_scopes d), tm')
          else (inl ValueError, tm')
      | _, _ => (inl ValueError, tm')
      end
  end.

(** The record [save_tokens] builds; [now] is
    [datetime.now(timezone.utc).isoformat()]. *)
Definition saved_record (access_token refresh_token now : string) (tm : token_manager)
    : token_data :=
  {| td_access_token := Some access_token; td_refresh_token := Some refresh_token;
     td_scopes := tm_scopes tm; td_updated_at := Some now |}.

(** The file operations of [TokenManager.save_tokens]: [open(token_file, "w")]
    then [json.dump]. *)
Definition save_tokens_ops (access_token refresh_token now : string) (tm : token_manager)
    : list fs_op :=
  [OpenW; Dump (saved_record access_token refresh_token now tm)].

(** [TokenManager.save_tokens]: the new in-memory state and file content. *)
Definition save_tokens (access_token refresh_token now : string) (tm : token_manager)
    (f : option ftext) : token_manager * option ftext :=
  let tm' := {| tm_access_token := Some access_token; tm_refresh_token := Some refresh_token;
                tm_scopes := tm_scopes tm |} in
  (tm', apply_fs_ops f (save_tokens_ops access_token refresh_token now tm)).

(** The file as left by a crash after the first [k] operations of a save. *)
Definition crashed_save (k : nat) (access_token refresh_token now : string)
    (tm : token_manager) (f : option ftext) : option ftext :=
  apply_fs_ops f (firstn k (save_tokens_ops access_token refresh_token now tm)).

(** [TwitchAPIClient._load_tokens] (the Flink client's constructor) on the
    same file: the two tokens it sets, or the exception that aborts the
    constructor ([json.load] on a missing or undecodable file, the
    [ValueError] for a missing or empty token). *)
Definition load_tokens_client (f : option ftext)
    : load_error + (option string * option string) :=
  match f with
  | None => inl FileNotFoundError
  | Some FEmpty | Some FGarbage => inl JSONDecodeError
  | Some (FJson d) =>
      if negb (truthy (td_access_token d)) || negb (truthy (td_refresh_token d))
      then inl ValueError
      else inr (td_access_token d, td_refresh_token d)
  end.

End TokenManager.

(* ================================================================== *)
(** * Stream monitoring service: [StreamMonitoringService]
    (src/services/stream-monitoring/stream_monitoring_service.py) *)
(* ================================================================== *)

Module Monitor.

Definition JOIN_THRESHOLD : nat := 5.
Definition LEAVE_THRESHOLD : nat := 10.

(** [str.lower()] on ASCII letters. *)
Definition lower_ascii (c : ascii) : ascii :=
  let n := nat_of_ascii c in
  if (65 <=? n)%nat && (n <=? 90)%nat then ascii_of_nat (n + 32) else c.

Fixpoint lower (s : string) : string :=
  match s with
  | EmptyString => EmptyString
  | String c s' => String (lower_ascii c) (lower s')
  end.

(** A stream as returned by [twitch.get_streams]; [user_id] is [None]
    when the string is not a decimal integer ([int()] raises). *)
Record stream := { user_login : string; user_id : option Z }.

(** The fields of the service that a poll tick reads or writes; [chat]
    records whether [self.chat] is set. *)
Record monitor := {
  joined_channels : gset string;
  chat : bool;
  broadcaster_ids : gmap string Z
}.

(** [await Chat(self.twitch)] and the registration / [start()] calls that
    follow it: all succeed, the constructor raises (nothing assigned), or
    a later call raises after [self.chat] has been assigned. *)
Inductive chat_start := ChatStarted | ChatCtorFails | ChatStartFails.

(** What the outside world does during one tick. *)
Record world := {
  streams_yielded : list stream;   (* items [get_streams] yields ... *)
  streams_error : bool;            (* ... before raising, if [true] *)
  redis_up : bool;                 (* [false]: [exists]/[setex] raise *)
  chat_start_outcome : chat_start;
  join_room_ok : string -> bool;   (* [chat.join_room(c)] returns normally *)
  leave_room_ok : string -> bool   (* [chat.leave_room(c)] returns normally *)
}.

Definition set_joined (m : monitor) (j : gset string) : monitor :=
  {| joined_channels := j; chat := chat m; broadcaster_ids := broadcaster_ids m |}.
Definition set_chat (m : monitor) (b : bool) : monitor :=
  {| joined_channels := joined_channels m; chat := b; broadcaster_ids := broadcaster_ids m |}.
Definition set_ids (m : monitor) (ids : gmap string Z) : monitor :=
  {| joined_channels := joined_channels m; chat := chat m; broadcaster_ids := ids |}.

(** The [async for] loop collecting at most [LEAVE_THRESHOLD] streams;
    [None]: the generator raised (a platform API error). *)
Definition collect_streams (w : world) : option (list stream) :=
  let ys := streams_yielded w in
  if (LEAVE_THRESHOLD <=? length ys)%nat then Some (take LEAVE_THRESHOLD ys)
  else if streams_error w then None else Some ys.

(** [enumerate(streams, 1)] *)
Definition enumerate1 {A} (l : list A) : list (nat * A) :=
  combine (seq 1 (length l)) l.

(** The [for rank, stream in enumerate(streams, 1)] loop: returns the two
    threshold sets, or [None] when an exception escaped ([int()] or
    Redis), together with [broadcaster_ids] as updated so far.
    [_upsert_streamer] and [_publish_lifecycle_event] catch their own
    errors. *)
Fixpoint rank_loop (w : world) (rs : list (nat * stream)) (ids : gmap string Z)
    (tj tl : gset string) : option (gset string * gset string) * gmap string Z :=
  match rs with
  | [] => (Some (tj, tl), ids)
  | (rank, st) :: rs' =>
      let login := lower (user_login st) in
      match user_id st with
      | None => (None, ids)
      | Some bid =>
          let ids' := <[login := bid]> ids in
          let tj' := if (rank <=? JOIN_THRESHOLD)%nat then {[login]} ∪ tj else tj in
          let tl' := if (rank <=? LEAVE_THRESHOLD)%nat then {[login]} ∪ tl else tl in
          if redis_up w then rank_loop w rs' ids' tj' tl' else (None, ids')
      end
  end.

(** The offline check over [list(self.joined_channels)]: a Redis [exists]
    for every joined login outside [top_leave]; [None]: it raised. *)
Fixpoint offline_loop (w : world) (tl : gset string) (ls : list string) : option unit :=
  match ls with
  | [] => Some tt
  | l :: ls' =>
      if bool_decide (l ∈ tl) then offline_loop w tl ls'
      else if redis_up w then offline_loop w tl ls' else None
  end.

(** The join loop: [join_room] raises when [self.chat] is [None]; a
    failed join is logged and the channel is not added. *)
Definition join_loop (w : world) (has_chat : bool) (cs : list string) (j : gset string)
    : gset string :=
  fold_left (fun j c => if has_chat && join_room_ok w c then {[c]} ∪ j else j) cs j.

Definition leave_loop (w : world) (has_chat : bool) (cs : list string) (j : gset string)
    : gset string :=
  fold_left (fun j c => if has_chat && leave_room_ok w c then j ∖ {[c]} else j) cs j.

Definition join_and_leave (w : world) (to_join to_leave : gset string) (m : monitor)
    : monitor :=
  let j1 := join_loop w (chat m) (elements to_join) (joined_channels m) in
  set_joined m (leave_loop w (chat m) (elements to_leave) j1).

Definition manage_chat_connections (w : world) (join_eligible leave_eligible : gset string)
    (m : monitor) : monitor :=
  let channels_to_join := join_eligible ∖ joined_channels m in
  let channels_to_leave := joined_channels m ∖ leave_eligible in
  if negb (bool_decide (channels_to_join = ∅)) && negb (chat m) then
    match chat_start_outcome w with
    | ChatStarted => join_and_leave w channels_to_join channels_to_leave (set_chat m true)
    | ChatCtorFails => m
    | ChatStartFails => set_chat m true
    end
  else join_and_leave w channels_to_join channels_to_leave m.

(** [poll_top_streams]: every exception is logged by the outer
    [try/except Exception]; state written before it is kept. *)
Definition poll_top_streams (w : world) (m : monitor) : monitor :=
  match collect_streams w with
  | None => m
  | Some ss =>
      match rank_loop w (enumerate1 ss) (broadcaster_ids m) ∅ ∅ with
      | (None, ids) => set_ids m ids
      | (Some (tj, tl), ids) =>
          let m1 := set_ids m ids in
          match offline_loop w tl (elements (joined_channels m1)) with
          | None => m1
          | Some _ => manage_chat_connections w tj tl m1
          end
      end
  end.

(** The lowercased logins of the streams ranked at most [k] in [ss]. *)
Definition top_ranked (k : nat) (ss : list stream) : gset string :=
  list_to_set (map (fun p => lower (user_login p.2))
                   (List.filter (fun p => (p.1 <=? k)%nat) (enumerate1 ss))).




(** ** Concrete ticks used by the examples *)

Definition mk_stream (login : string) (id : Z) : stream :=
  {| user_login := login; user_id := Some id |}.

(** Twelve live streams, the generator ends normally after them. *)
Definition sample_streams : list stream :=
  [mk_stream "Alpha"%string 1; mk_stream "Bravo"%string 2; mk_stream "Charlie"%string 3;
   mk_stream "Delta"%string 4; mk_stream "Echo"%string 5; mk_stream "Foxtrot"%string 6;
   mk_stream "Golf"%string 7; mk_stream "Hotel"%string 8; mk_stream "India"%string 9;
   mk_stream "Juliett"%string 10; mk_stream "Kilo"%string 11; mk_stream "Lima"%string 12].

Definition sample_world (err : bool) (ys : list stream) : world :=
  {| streams_yielded := ys; streams_error := err; redis_up := true;
     chat_start_outcome := ChatStarted;
     join_room_ok := fun _ => true; leave_room_ok := fun _ => true |}.

(** Joined to "golf" (rank 7) and "zulu" (no longer live); no chat client yet. *)
Definition sample_monitor : monitor :=
  {| joined_channels := {["golf"%string; "zulu"%string]}; chat := false; broadcaster_ids := ∅ |}.

(** The same, with a running chat client. *)
Definition chatting_monitor : monitor := set_chat sample_monitor true.

(** A freshly started service: no channel joined, no chat client. *)
Definition fresh_monitor : monitor :=
  {| joined_channels := ∅; chat := false; broadcaster_ids := ∅ |}.

(** The twelve sample streams, with the chat client's start ending as [o]. *)
Definition chat_start_world (o : chat_start) : world :=
  {| streams_yielded := sample_streams; streams_error := false; redis_up := true;
     chat_start_outcome := o;
     join_room_ok := fun _ => true; leave_room_ok := fun _ => true |}.


End Monitor.

(* ================================================================== *)
(** * Proofs *)
(* ================================================================== *)

(* ================================================================== *)
(** * Proofs: spike detector *)
(* ================================================================== *)

Module DetectorProofs.
Import Detector.

Lemma process_element_shape bid ts now st :
  step_shape bid now st (process_element bid ts now st).1 (process_element bid ts now st).2.
Proof.
  unfold process_element, step_shape; cbn zeta.
  destruct (last_anomaly_time st) as [l|] eqn:Hl;
  repeat match goal with
         | |- context [if ?b then _ else _] => destruct b eqn:?
         end; simpl; auto;
  right; eexists; repeat split; auto.
  apply Z.ltb_lt; assumption.
Qed.

Lemma last_of_insert_eq ks c st : last_of (<[c := st]> ks) c = last_anomaly_time st.
Proof. unfold last_of. by rewrite lookup_insert_eq. Qed.

Lemma last_of_insert_ne ks c c' st : c' <> c -> last_of (<[c' := st]> ks) c = last_of ks c.
Proof. intros Hne. unfold last_of. by rewrite lookup_insert_ne. Qed.

Lemma emitted_at_app c o1 o2 : emitted_at c (o1 ++ o2) = emitted_at c o1 ++ emitted_at c o2.
Proof. unfold emitted_at. by rewrite List.filter_app, map_app. Qed.

(** Along any run of the keyed operator, the anomalies of each key are
    spaced by more than the cooldown, starting from its stored value. *)
Lemma run_spaced xs : forall ks c, spaced (last_of ks c) (emitted_at c (run ks xs).2).
Proof.
  induction xs as [|x xs IH]; intros ks c; simpl; [exact I|].
  unfold keyed_step.
  pose proof (process_element_shape (in_bid x) (in_ts x) (in_now x)
                (default det_init (ks !! in_bid x))) as Hs.
  destruct (process_element (in_bid x) (in_ts x) (in_now x)
              (default det_init (ks !! in_bid x))) as [st' out] eqn:Hp; simpl in Hs.
  destruct (run (<[in_bid x := st']> ks) xs) as [ks2 out2] eqn:Hr; simpl.
  specialize (IH (<[in_bid x := st']> ks) c). rewrite Hr in IH; simpl in IH.
  rewrite emitted_at_app.
  destruct (Z.eq_dec (in_bid x) c) as [<-|Hne].
  - rewrite last_of_insert_eq in IH.
    destruct Hs as [[-> Hl] | (a & -> & Hb & Ht & Hl & Hc)].
    + simpl. rewrite Hl in IH. unfold last_of. exact IH.
    + unfold emitted_at at 1; simpl. rewrite Hb, Z.eqb_refl; simpl.
      rewrite Ht. split.
      * unfold last_of. exact Hc.
      * rewrite Hl in IH. exact IH.
  - rewrite last_of_insert_ne in IH by exact Hne.
    destruct Hs as [[-> _] | (a & -> & Hb & _)].
    + exact IH.
    + unfold emitted_at at 1; simpl. rewrite Hb.
      apply Z.eqb_neq in Hne. rewrite Hne. exact IH.
Qed.

Lemma spaced_after a ts : spaced (Some a) ts -> Forall (fun t => a + COOLDOWN_SECONDS * 1000 < t) ts.
Proof.
  revert a; induction ts as [|t ts IH]; intros a H; simpl in H; [constructor|].
  destruct H as [Ht Hs]. unfold COOLDOWN_SECONDS in *. constructor; [lia|].
  specialize (IH t Hs). eapply Forall_impl; [exact IH|]. simpl. intros; lia.
Qed.

(** Spaced detection times put at most one anomaly into any closed
    cooldown-long interval. *)
Lemma spaced_window lo ts w :
  spaced lo ts -> (length (List.filter (in_window w) ts) <= 1)%nat.
Proof.
  revert lo; induction ts as [|t ts IH]; intros lo H; simpl; [lia|].
  destruct H as [_ Hs].
  destruct (in_window w t) eqn:Hw; simpl.
  - assert (List.filter (in_window w) ts = []) as ->; [|simpl; lia].
    pose proof (spaced_after t ts Hs) as Hf.
    unfold in_window in Hw. apply andb_true_iff in Hw as [H1 H2].
    apply Z.leb_le in H1; apply Z.leb_le in H2. clear IH Hs.
    induction Hf as [|t' ts' Ht' Hf IHf]; simpl; [reflexivity|].
    unfold in_window at 1.
    replace (t' <=? w + COOLDOWN_SECONDS * 1000) with false
      by (symmetry; apply Z.leb_gt; unfold COOLDOWN_SECONDS in *; lia).
    rewrite andb_false_r. exact IHf.
  - exact (IH _ Hs).
Qed.

(** C1: the per-channel cooldown.  Each step yields at most one anomaly;
    it is yielded only when [last_anomaly_time] is [None] or more than
    [COOLDOWN_SECONDS * 1000] ms lie between it and [current_time * 1000],
    and then it becomes the new [last_anomaly_time] (otherwise that value
    is untouched).  Consequently, along any run of the keyed operator and
    for every broadcaster [c], every closed wall-clock interval of
    30000 ms holds at most one anomaly of [c]. *)
Theorem cooldown_one_anomaly_per_window :
  (forall bid ts now st,
      step_shape bid now st (process_element bid ts now st).1
                            (process_element bid ts now st).2)
  /\ (forall ks xs c w,
      (length (List.filter (in_window w) (emitted_at c (run ks xs).2)) <= 1)%nat).
Proof.
  split.
  - intros. apply process_element_shape.
  - intros ks xs c w. exact (spaced_window _ _ w (run_spaced xs ks c)).
Qed.

Lemma baseline_length (ts now : Z) (st : det_state) :
  length (map_to_list (filter (fun kv : Z * Z => now - BASELINE_WINDOW_SECONDS <= kv.1)
     (<[ts `div` 1000 := default 0 (message_counts st !! (ts `div` 1000)) + 1]>
        (message_counts st)))).*2 = baseline_buckets ts now st.
Proof. unfold baseline_buckets. by rewrite length_fmap, length_map_to_list. Qed.

(** C2 (as amended): warm-up gate.  When, after the message's bucket is
    added, fewer than 240 retained buckets have a key [>= current_time - 300]
    (buckets later than [current_time] included), the step yields no anomaly
    and leaves the cooldown value unchanged, whatever the window sum. *)
Theorem warmup_gate_no_anomaly bid ts now st :
  (baseline_buckets ts now st < min_required)%nat ->
  (process_element bid ts now st).2 = []
  /\ last_anomaly_time (process_element bid ts now st).1 = last_anomaly_time st.
Proof.
  intros Hlt. unfold process_element. cbn zeta.
  rewrite (baseline_length ts now st).
  apply Nat.ltb_lt in Hlt. rewrite Hlt. simpl. split; reflexivity.
Qed.

(** A burst of 100 messages within the 5-second window after 200 seconds
    of history: the gate suppresses it, although the same burst after 300
    seconds of history yields an anomaly. *)
Lemma warmup_gate_no_anomaly_witness :
  (baseline_buckets 999000 1000 warmup_burst_state < min_required)%nat
  /\ (process_element 7 999000 1000 warmup_burst_state).2 = []
  /\ last_anomaly_time (process_element 7 999000 1000 warmup_burst_state).1
     = last_anomaly_time warmup_burst_state
  /\ length (process_element 7 999000 1000 full_burst_state).2 = 1%nat.
Proof.
  assert (H : (baseline_buckets 999000 1000 warmup_burst_state < min_required)%nat)
    by (vm_compute; lia).
  split; [exact H|split; [|split]].
  - exact (proj1 (warmup_gate_no_anomaly 7 999000 1000 warmup_burst_state H)).
  - exact (proj2 (warmup_gate_no_anomaly 7 999000 1000 warmup_burst_state H)).
  - vm_compute. reflexivity.
Defined.

(** C2 as stated fails: with the producer's clock one second ahead, only
    239 buckets lie inside [[now - 300, now]], yet the line stamped 1001
    is counted in the baseline and an anomaly is yielded. *)
Lemma warmup_inside_window_counterexample :
  let st := default det_init ((run ∅ skewed_prefix).1 !! 7) in
  (buckets_inside_window 1001000 1000 st < min_required)%nat
  /\ length (process_element 7 1001000 1000 st).2 = 1%nat.
Proof. vm_compute. split; [lia | reflexivity]. Qed.

End DetectorProofs.

(* ================================================================== *)
(** * Proofs: Twitch client and clip creator *)
(* ================================================================== *)

Module TwitchProofs.
Import Twitch.

(** ** Refinement of the retry loop by the spec's three-attempt program *)

Lemma after_loop_nontruthy b d c : truthy_id c = false -> after_loop b d c = ret [].
Proof.
  destruct c as [c|]; simpl; [|reflexivity].
  destruct (String.eqb c EmptyString); simpl; [reflexivity|discriminate].
Qed.

Lemma loop_refines b d ds : forall c0 s, truthy_id c0 = false ->
  bind (retry_loop ds b c0) (after_loop b d) s = bind (spec_attempts_from ds b) (after_attempts b d) s.
Proof.
  induction ds as [|dl ds IH]; intros c0 s Hc0.
  - simpl. unfold bind, ret at 1 2. rewrite after_loop_nontruthy by exact Hc0. reflexivity.
  - cbn [retry_loop spec_attempts_from]. unfold bind, attempt.
    destruct (0 <? dl); cbn -[create_clip retry_loop spec_attempts_from after_loop after_attempts];
    match goal with |- context [create_clip b ?s1] => destruct (create_clip b s1) as [r s2] end;
    destruct r as [e|c].
    1,3: destruct e as [| | | | | | |st [|]]; cbn -[retry_loop spec_attempts_from after_loop after_attempts];
      first [ rewrite (after_loop_nontruthy b d c0 Hc0); reflexivity | exact (IH c0 s2 Hc0) ].
    all: destruct c as [c|]; cbn -[retry_loop spec_attempts_from after_loop after_attempts];
      [destruct (String.eqb c EmptyString) eqn:He; cbn -[retry_loop spec_attempts_from after_loop after_attempts]
      | exact (IH None s2 eq_refl)].
    all: first [ exact (IH (Some c) s2 ltac:(simpl; rewrite He; reflexivity))
               | unfold after_loop, after_attempts; rewrite He; reflexivity ].
Qed.

Lemma spec_attempts_unrolled b s :
  spec_create_attempts b s = spec_attempts_from RETRY_DELAYS b s.
Proof.
  unfold spec_create_attempts, RETRY_DELAYS; cbn [spec_attempts_from].
  unfold bind, attempt; cbn -[create_clip classify].
  destruct (create_clip b s) as [r1 s1]; destruct (classify r1); try reflexivity.
Qed.

Lemma process_element_refines a s : process_element a s = spec_process_anomaly a s.
Proof.
  unfold process_element, spec_process_anomaly, catch.
  assert (E : bind (retry_loop RETRY_DELAYS (an_broadcaster_id a) None)
                   (after_loop (an_broadcaster_id a) (an_detected_at a)) s
            = bind (spec_create_attempts (an_broadcaster_id a))
                   (after_attempts (an_broadcaster_id a) (an_detected_at a)) s).
  { rewrite (loop_refines _ _ RETRY_DELAYS None s eq_refl).
    unfold bind at 2. rewrite spec_attempts_unrolled. reflexivity. }
  unfold after_loop, after_attempts in E. rewrite E. reflexivity.
Qed.

(** ** Effect footprints *)

Lemma count_app t1 t2 : count_create_calls (t1 ++ t2) = (count_create_calls t1 + count_create_calls t2)%nat.
Proof. unfold count_create_calls. by rewrite List.filter_app, length_app. Qed.

Create HintDb footprint.

Section Footprint.
Variable P : event -> bool.

Lemma eff_ret {A} (x : A) : eff P 0 (ret x).
Proof. intros s. exists []. rewrite app_nil_r. auto. Qed.

Lemma eff_raise {A} e : eff P 0 (@raise A e).
Proof. intros s. exists []. rewrite app_nil_r. auto. Qed.

Lemma eff_get : eff P 0 get.
Proof. intros s. exists []. rewrite app_nil_r. auto. Qed.

Lemma eff_set_tokens a r : eff P 0 (set_tokens a r).
Proof. intros s. exists []. rewrite app_nil_r. auto. Qed.

Lemma eff_set_file f : eff P 0 (set_file f).
Proof. intros s. exists []. rewrite app_nil_r. auto. Qed.

Lemma eff_next_outcome : eff P 0 next_outcome.
Proof.
  intros s. exists []. rewrite app_nil_r. unfold next_outcome.
  destruct (script s); simpl; auto.
Qed.

Lemma eff_emit ev : P ev = true -> eff P (if is_create ev then 1 else 0) (emit ev).
Proof.
  intros Hp s. exists [ev]. simpl. rewrite Hp.
  unfold count_create_calls; simpl. destruct ev; simpl; repeat split; auto; discriminate.
Qed.

Lemma eff_weaken {A} n n' (m : M A) : (n <= n')%nat -> eff P n m -> eff P n' m.
Proof.
  intros Hle H s. destruct (H s) as (tl & H1 & H2 & H3 & H4). exists tl. repeat split; auto; lia.
Qed.

Lemma eff_bind {A B} n k (m : M A) (f : A -> M B) :
  eff P n m -> (forall x, eff P k (f x)) -> eff P (n + k) (bind m f).
Proof.
  intros Hm Hf s. unfold bind.
  destruct (Hm s) as (tl1 & T1 & C1 & F1 & K1).
  destruct (m s) as [[e|x] s1]; simpl in *.
  - exists tl1. repeat split; auto; lia.
  - destruct (Hf x s1) as (tl2 & T2 & C2 & F2 & K2).
    exists (tl1 ++ tl2). rewrite T2, T1, app_assoc. rewrite count_app, forallb_app, F1, F2.
    repeat split; [lia|]. rewrite existsb_app. intros Hn. apply orb_false_iff in Hn as [Hn1 Hn2].
    rewrite K2, K1; auto.
Qed.

Lemma eff_catch {A} n k (m : M A) (h : exc -> M A) :
  eff P n m -> (forall e, eff P k (h e)) -> eff P (n + k) (catch m h).
Proof.
  intros Hm Hh s. unfold catch.
  destruct (Hm s) as (tl1 & T1 & C1 & F1 & K1).
  destruct (m s) as [[e|x] s1]; simpl in *.
  - destruct (Hh e s1) as (tl2 & T2 & C2 & F2 & K2).
    exists (tl1 ++ tl2). rewrite T2, T1, app_assoc. rewrite count_app, forallb_app, F1, F2.
    repeat split; [lia|]. rewrite existsb_app. intros Hn. apply orb_false_iff in Hn as [Hn1 Hn2].
    rewrite K2, K1; auto.
  - exists tl1. repeat split; auto; lia.
Qed.

Lemma eff_attempt {A} n (m : M A) : eff P n m -> eff P n (attempt m).
Proof.
  intros Hm s. unfold attempt. destruct (Hm s) as (tl & H). destruct (m s). exists tl. exact H.
Qed.

Lemma eff_bind0 {A B} (m : M A) (f : A -> M B) :
  eff P 0 m -> (forall x, eff P 0 (f x)) -> eff P 0 (bind m f).
Proof. intros. apply (eff_bind 0 0); auto. Qed.

Lemma eff_catch0 {A} (m : M A) (h : exc -> M A) :
  eff P 0 m -> (forall e, eff P 0 (h e)) -> eff P 0 (catch m h).
Proof. intros. apply (eff_catch 0 0); auto. Qed.

Lemma eff_request ev : P ev = true -> is_create ev = false -> eff P 0 (request ev).
Proof.
  intros Hp Hc. unfold request.
  apply eff_bind0; [| intros ?].
  2: apply eff_bind0; [apply eff_next_outcome | intros o; destruct o; first [apply eff_ret | apply eff_raise]].
  pose proof (eff_emit ev Hp) as H. rewrite Hc in H. exact H.
Qed.

End Footprint.

Ltac eff0 :=
  repeat first
    [ apply eff_request; [solve [auto] | reflexivity]
    | apply eff_bind0; [| intros ?]
    | apply eff_catch0; [| intros ?]
    | apply eff_ret | apply eff_raise | apply eff_get | apply eff_set_tokens
    | apply eff_set_file | apply eff_next_outcome
    | match goal with
      | |- eff _ _ (match ?x with _ => _ end) => destruct x
      | |- eff _ _ (if ?x then _ else _) => destruct x
      end ].

Section Footprint2.
Variable P : event -> bool.

Lemma eff_json p : eff P 0 (json p).
Proof. unfold json. eff0. Qed.

Lemma eff_raise_for_status st : eff P 0 (raise_for_status st).
Proof. unfold raise_for_status. eff0. Qed.

Lemma eff_save_tokens_client : eff P 0 save_tokens_client.
Proof. unfold save_tokens_client. eff0. Qed.

Lemma eff_clip_id_of it : eff P 0 (clip_id_of it).
Proof. unfold clip_id_of. eff0. Qed.

Lemma eff_sleep d : P (EvSleep d) = true -> eff P 0 (sleep d).
Proof. intros Hp. exact (eff_emit P _ Hp). Qed.


Local Hint Resolve eff_json eff_raise_for_status eff_save_tokens_client eff_clip_id_of : footprint.

Section Http.
Hypothesis HP_post : forall t, P (EvPostClips t) = true.
Hypothesis HP_token : forall r, P (EvPostToken r) = true.

Lemma eff_refresh_access_token : eff P 0 refresh_access_token.
Proof.
  unfold refresh_access_token. eff0; auto with footprint.
Qed.

Lemma eff_create_clip_body tok : eff P 0 (create_clip_body tok).
Proof.
  unfold create_clip_body. eff0; auto with footprint.
  all: apply eff_refresh_access_token.
Qed.

Lemma eff_create_clip b : P (EvCreateClip b) = true -> eff P 1 (create_clip b).
Proof.
  intros Hc. unfold create_clip.
  apply (eff_bind P 1 0); [exact (eff_emit P _ Hc) | intros _].
  apply eff_bind0; [apply eff_get | intros s].
  apply eff_catch0; [apply eff_create_clip_body | intros e].
  unfold create_clip_handler. destruct e; apply eff_raise.
Qed.

Lemma eff_insert_clip row : P (EvInsert row) = true -> eff P 0 (insert_clip row).
Proof.
  intros Hp s. unfold insert_clip, bind, get. simpl.
  destruct (db_up s); simpl.
  - exists [EvInsert row]. simpl. rewrite Hp.
    destruct (existsb _ (catalog s)); simpl; repeat split; auto; discriminate.
  - exists []. rewrite app_nil_r. auto.
Qed.

End Http.

End Footprint2.

#[export] Hint Resolve eff_json eff_raise_for_status eff_save_tokens_client eff_clip_id_of : footprint.

Lemma eff_spec_create_attempts b : eff attempt_event 3 (spec_create_attempts b).
Proof.
  unfold spec_create_attempts.
  apply (eff_bind _ 1 2); [apply eff_attempt, eff_create_clip; reflexivity | intros r1].
  destruct (classify r1); [apply (eff_weaken _ 0); [lia | apply eff_ret] .. |].
  apply (eff_bind _ 0 2); [apply eff_sleep; reflexivity | intros _].
  apply (eff_bind _ 1 1); [apply eff_attempt, eff_create_clip; reflexivity | intros r2].
  destruct (classify r2); [apply (eff_weaken _ 0); [lia | apply eff_ret] .. |].
  apply (eff_bind _ 0 1); [apply eff_sleep; reflexivity | intros _].
  apply (eff_bind _ 1 0); [apply eff_attempt, eff_create_clip; reflexivity | intros r3].
  destruct (classify r3); apply eff_ret.
Qed.

Lemma eff_get_clip P c :
  (forall t, P (EvGetClips t) = true) -> (forall r, P (EvPostToken r) = true) ->
  eff P 0 (get_clip c).
Proof.
  intros Hg Ht. unfold get_clip, get_clip_body. eff0; auto with footprint.
Qed.

Lemma eff_store_clip b d c : eff any_event 0 (store_clip b d c).
Proof.
  unfold store_clip.
  apply eff_bind0; [apply eff_sleep; reflexivity | intros _].
  apply eff_bind0; [apply eff_get_clip; reflexivity | intros o].
  destruct o as [it|]; [destruct (item_truthy it)|]; try apply eff_ret.
  apply eff_bind0; [apply eff_insert_clip; reflexivity | intros _; apply eff_ret].
Qed.


Lemma eff_mono_P (P Q : event -> bool) n {A} (m : M A) :
  (forall ev, P ev = true -> Q ev = true) -> eff P n m -> eff Q n m.
Proof.
  intros HPQ H s. destruct (H s) as (tl & T & C & F & K). exists tl.
  repeat split; auto. apply forallb_forall. intros x Hx.
  apply HPQ. exact (proj1 (forallb_forall P tl) F x Hx).
Qed.

Lemma attempt_events_no_insert tl : forallb attempt_event tl = true -> existsb is_insert tl = false.
Proof.
  induction tl as [|ev tl IH]; simpl; [reflexivity|].
  intros H. apply andb_true_iff in H as [H1 H2]. rewrite IH by exact H2.
  destruct ev; simpl in *; congruence.
Qed.

(** C4: the clip creator's bounded retry.  [ClipCreator.process_element]
    behaves exactly as the three-attempt program of the spec
    ([spec_process_anomaly]: waits of 0 s, 3 s, 6 s before the attempts, a
    non-empty clip id wins, a permanent error stops, the 15 s wait,
    [get_clip] and the catalog write only after a win); it calls
    [create_clip] at most three times; and when no attempt yields a
    non-empty clip id, processing ends right after the attempts, with the
    catalog untouched and no event but create calls, their HTTP requests and
    the 3 s / 6 s waits (so no 15 s wait, no [get_clip], no INSERT). *)
Theorem clip_creator_bounded_retry (a : anomaly_in) :
  (forall s, process_element a s = spec_process_anomaly a s)
  /\ (forall s, exists tl, trace (snd (process_element a s)) = trace s ++ tl
                          /\ (count_create_calls tl <= 3)%nat)
  /\ (forall s, match spec_create_attempts (an_broadcaster_id a) s with
                | (inr None, s1) =>
                    process_element a s = (inr [], s1)
                    /\ catalog s1 = catalog s
                    /\ exists tl, trace s1 = trace s ++ tl /\ forallb attempt_event tl = true
                | _ => True
                end).
Proof.
  split; [exact (process_element_refines a)|split].
  - intros s. rewrite process_element_refines.
    assert (H : eff any_event 3 (spec_process_anomaly a)).
    { unfold spec_process_anomaly.
      apply (eff_catch _ 3 0); [|intros _; apply eff_ret].
      apply (eff_bind _ 3 0).
      - apply (eff_mono_P attempt_event); [reflexivity|apply eff_spec_create_attempts].
      - intros [c|]; [apply eff_store_clip | apply eff_ret]. }
    destruct (H s) as (tl & T & C & _). exists tl. split; assumption.
  - intros s. pose proof (eff_spec_create_attempts (an_broadcaster_id a) s) as (tl & T & _ & F & K).
    rewrite process_element_refines. unfold spec_process_anomaly, catch, bind.
    destruct (spec_create_attempts (an_broadcaster_id a) s) as [[e|[c|]] s1]; try exact I.
    simpl in *. split; [reflexivity|split].
    + apply K, attempt_events_no_insert, F.
    + exists tl. split; assumption.
Qed.

Lemma consumes_bind {A B} n k (m : M A) (f : A -> M B) :
  consumes n m -> (forall x, consumes k (f x)) -> consumes (n + k) (bind m f).
Proof.
  intros Hm Hf s y s2. unfold bind.
  destruct (m s) as [[e|x] s1] eqn:E; [discriminate|].
  intros E2. destruct (Hm s x s1 E) as (p1 & L1 & S1).
  destruct (Hf x s1 y s2 E2) as (p2 & L2 & S2).
  exists (p1 ++ p2). rewrite length_app, L1, L2, S1, S2, app_assoc. auto.
Qed.

Lemma consumes_ret {A} (x : A) : consumes 0 (ret x).
Proof. intros s y s' E. injection E as _ <-. exists []. auto. Qed.

Lemma consumes_raise {A} e : consumes 0 (@raise A e).
Proof. intros s y s' E. discriminate. Qed.

Lemma consumes_get : consumes 0 get.
Proof. intros s y s' E. injection E as _ <-. exists []. auto. Qed.

Lemma consumes_set_tokens a r : consumes 0 (set_tokens a r).
Proof. intros s y s' E. injection E as _ <-. exists []. auto. Qed.

Lemma consumes_set_file f : consumes 0 (set_file f).
Proof. intros s y s' E. injection E as _ <-. exists []. auto. Qed.

Lemma consumes_request ev : consumes 1 (request ev).
Proof.
  intros s y s' E. unfold request, bind, emit, next_outcome, ret, raise in E. simpl in E.
  destruct (script s) as [|o rest] eqn:Hs; [discriminate|].
  exists [o]. split; [reflexivity|].
  destruct o; try discriminate. injection E as _ <-. reflexivity.
Qed.

Lemma consumes_refresh : consumes 1 refresh_access_token.
Proof.
  unfold refresh_access_token.
  apply (consumes_bind 0 1); [apply consumes_get | intros s].
  apply (consumes_bind 1 0); [apply consumes_request | intros r].
  apply (consumes_bind 0 0).
  { destruct (negb _); [unfold raise_for_status; destruct (_ && _)|];
      first [apply consumes_raise | apply consumes_ret]. }
  intros _. apply (consumes_bind 0 0).
  { destruct (snd r); [apply consumes_raise | apply consumes_ret]. }
  intros data. destruct (b_access_token data); [apply consumes_raise| |];
  apply (consumes_bind 0 0); try apply consumes_set_tokens; intros _;
  unfold save_tokens_client; apply (consumes_bind 0 0); try apply consumes_get; intros s2;
  destruct (client_save_ops s2); first [apply consumes_set_file | apply consumes_ret].
Qed.

(** C10: [get_clip] never raises, whatever the network does: its result is
    never an exception, and when it returns clip data [it], the network
    served [it] in a 200 reply with a non-empty ["data"] array, either to
    the first request or, after a 401 and one token refresh (which takes
    one reply), to the single retried request. *)
Theorem get_clip_total c s :
  match get_clip c s with
  | (inl _, _) => False
  | (inr None, _) => True
  | (inr (Some it), _) => served_clip it (script s)
  end.
Proof.
  unfold get_clip, get_clip_body.
  cbv [bind get catch request emit next_outcome ret raise json]. simpl.
  destruct (script s) as [|o1 rest] eqn:Hs; simpl; [exact I|].
  destruct o1 as [st p| |]; simpl; try exact I.
  destruct (st =? 200) eqn:E200.
  - destruct p as [|b]; simpl; [exact I|].
    destruct (b_data b) as [[|it l]|] eqn:Hd; simpl; try exact I.
    destruct (ci_embed_url it); simpl; try exact I;
      (left; split; [apply Z.eqb_eq; exact E200 | exists l; first [exact Hd | reflexivity]]).
  - destruct (st =? 401) eqn:E401; simpl; [|exact I].
    match goal with |- context [refresh_access_token ?s1] =>
      pose proof (consumes_refresh s1) as Hc; destruct (refresh_access_token s1) as [[e|u] s2] eqn:Er end;
      simpl; [exact I|].
    destruct (Hc u s2 eq_refl) as (pre & Hl & Hsc). simpl in Hsc.
    destruct pre as [|o2 [|]]; try discriminate. simpl in Hsc.
    destruct (script s2) as [|o3 rest3] eqn:Hs2; simpl; try exact I.
    destruct o3 as [st3 p3| |]; simpl; try exact I.
    destruct (st3 =? 200) eqn:E3; simpl; try exact I.
    destruct p3 as [|b]; simpl; [exact I|].
    destruct (b_data b) as [[|it l]|] eqn:Hd; simpl; try exact I.
    right. split; [apply Z.eqb_eq; exact E401|]. subst rest. simpl.
    split; [apply Z.eqb_eq; exact E3 | exists l; first [exact Hd | reflexivity]].
Qed.

(** C3 counterexample: 503 is in [RETRYABLE_STATUS_CODES], yet a 503 reply
    to the request retried after a 401 and a successful token refresh is
    reported as a permanent error. *)
Lemma create_clip_retry_503_counterexample :
  is_retryable_status 503 = true /\
  fst (create_clip 5 (sample_env [Reply 401 PMalformed; refresh_reply; Reply 503 PMalformed]))
    = inl (ETwitchAPI 503 false).
Proof. split; vm_compute; reflexivity. Qed.

(** Runs the client code symbolically down to the scripted replies. *)
Ltac run_client Hs :=
  cbv [create_clip create_clip_body create_clip_handler refresh_access_token
       save_tokens_client bind get catch request emit next_outcome ret raise json
       set_tokens set_file raise_for_status clip_id_of];
  cbn -[is_retryable_status client_save_ops apply_fs_ops]; rewrite ?Hs; cbn -[is_retryable_status client_save_ops apply_fs_ops].

(** C3 (amended): [create_clip]'s error classification.
    - Every 4xx status other than 408 and 429 is non-retryable.
    - A first reply with status [st] other than 202 and 401 raises
      [TwitchAPIError(st, st in RETRYABLE_STATUS_CODES)].
    - A timeout on the first request raises [(408, retryable)], a
      connection error [(0, retryable)].
    - A 401 triggers one token refresh and one retry with the new access
      token; any reply other than 202 to the retry, whatever its status
      (a retryable 503 included), raises [(status, non-retryable)]; the
      requests made are exactly: create, refresh, retried create.
    - A timeout of the retried request stays retryable [(408, retryable)]. *)
Theorem create_clip_classification (bid : Z) (s : env) :
  (forall st, 400 <= st < 500 -> st <> 408 -> st <> 429 -> is_retryable_status st = false)
  /\ (forall st p rest, script s = Reply st p :: rest -> st <> 202 -> st <> 401 ->
        fst (create_clip bid s) = inl (ETwitchAPI st (is_retryable_status st)))
  /\ (forall rest, script s = RTimeout :: rest ->
        fst (create_clip bid s) = inl (ETwitchAPI 408 true))
  /\ (forall rest, script s = RConnError :: rest ->
        fst (create_clip bid s) = inl (ETwitchAPI 0 true))
  /\ (forall p1 tb st2 p2 rest a,
        script s = Reply 401 p1 :: Reply 200 (PObj tb) :: Reply st2 p2 :: rest ->
        b_access_token tb = JStr a -> st2 <> 202 ->
        fst (create_clip bid s) = inl (ETwitchAPI st2 false)
        /\ trace (snd (create_clip bid s)) =
             trace s ++ [EvCreateClip bid; EvPostClips (access_token s);
                         EvPostToken (refresh_token s); EvPostClips (Some a)])
  /\ (forall p1 tb rest a,
        script s = Reply 401 p1 :: Reply 200 (PObj tb) :: RTimeout :: rest ->
        b_access_token tb = JStr a ->
        fst (create_clip bid s) = inl (ETwitchAPI 408 true)).
Proof.
  split; [|split; [|split; [|split; [|split]]]].
  - intros st Hr H1 H2. unfold is_retryable_status. simpl.
    repeat match goal with |- context [?a =? ?b] =>
      destruct (Z.eqb_spec a b); [lia|] end; reflexivity.
  - intros st p rest Hs H1 H2. run_client Hs.
    apply Z.eqb_neq in H1, H2. rewrite H1, H2. reflexivity.
  - intros rest Hs. run_client Hs. reflexivity.
  - intros rest Hs. run_client Hs. reflexivity.
  - intros p1 tb st2 p2 rest a Hs Ha H2. run_client Hs. rewrite Ha. cbn.
    destruct (client_save_ops _); cbn;
    apply Z.eqb_neq in H2; rewrite H2; cbn; rewrite <- !app_assoc; split; reflexivity.
  - intros p1 tb rest a Hs Ha. run_client Hs. rewrite Ha. cbn.
    destruct (client_save_ops _); reflexivity.
Qed.

(** The 401-then-503 instance of [create_clip_classification]. *)
Lemma create_clip_classification_witness :
  fst (create_clip 5 (sample_env [Reply 401 PMalformed; refresh_reply; Reply 503 PMalformed]))
    = inl (ETwitchAPI 503 false)
  /\ trace (snd (create_clip 5 (sample_env [Reply 401 PMalformed; refresh_reply; Reply 503 PMalformed])))
    = [EvCreateClip 5; EvPostClips (Some "old"%string); EvPostToken (Some "r0"%string);
       EvPostClips (Some "new"%string)].
Proof.
  destruct (create_clip_classification 5 (sample_env [Reply 401 PMalformed; refresh_reply; Reply 503 PMalformed]))
    as (_ & _ & _ & _ & H4 & _).
  apply (H4 PMalformed {| b_data := None; b_access_token := JStr "new"%string;
                          b_refresh_token := JAbsent |} 503 PMalformed [] "new"%string); [reflexivity | reflexivity | lia].
Defined.

End TwitchProofs.



(* ================================================================== *)
(** * Proofs: command pre-filter *)
(* ================================================================== *)

Module CommandsProofs.
Import Commands.

(** C8: on chat lines the command filter keeps exactly the lines whose
    text does not match [^![a-zA-Z0-9]+], in order; on any values it acts
    pointwise, so filtering [xs ++ ys] gives the concatenation of the two
    results (or fails, if one of them does); and the lines
    ["!help"; "hello"; "!bet100"; "LUL"] leave the two lines "hello" and
    "LUL" for the detector. *)
Theorem command_filter_pointwise :
  (forall ts, command_filter (map chat_line ts)
              = Some (map chat_line (List.filter (fun t => negb (command_match t)) ts)))
  /\ (forall xs ys, command_filter (xs ++ ys)
                    = match command_filter xs, command_filter ys with
                      | Some a, Some b => Some (a ++ b)
                      | _, _ => None
                      end)
  /\ command_filter (map chat_line ["!help"; "hello"; "!bet100"; "LUL"]%string)
     = Some (map chat_line ["hello"; "LUL"]%string)
  /\ length (List.filter (fun t => negb (command_match t)) ["!help"; "hello"; "!bet100"; "LUL"]%string) = 2%nat.
Proof.
  split; [|split; [|split; reflexivity]].
  - induction ts as [|t ts IH]; [reflexivity|].
    simpl. rewrite IH. unfold chat_line at 1. simpl.
    destruct (command_match t); reflexivity.
  - induction xs as [|x xs IH]; intros ys; simpl.
    + destruct (command_filter ys); reflexivity.
    + rewrite IH. destruct (process_element x), (command_filter xs), (command_filter ys);
        try reflexivity. rewrite app_assoc. reflexivity.
Qed.

End CommandsProofs.

(* ================================================================== *)
(** * Proofs: credential store *)
(* ================================================================== *)

Module TokenManagerProofs.
Import Twitch TokenManager.

(** C6 counterexample: [save_tokens] truncates the live file and then
    dumps into it; there is no temporary file and no rename. A crash right
    after the [open(..., "w")] leaves an empty credential file, which
    [load_tokens] rejects, although the file before the save loaded. *)
Lemma save_tokens_torn_counterexample :
  fst (load_tokens (Some (FJson sample_file)) tm_init)
    = inr ("old"%string, "r0"%string, ["clips:edit"%string])
  /\ crashed_save 1 "new" "r1" "2026-10-15T00:00:00+00:00"
       (snd (load_tokens (Some (FJson sample_file)) tm_init)) (Some (FJson sample_file))
     = Some FEmpty
  /\ fst (load_tokens (crashed_save 1 "new" "r1" "2026-10-15T00:00:00+00:00"
                         (snd (load_tokens (Some (FJson sample_file)) tm_init))
                         (Some (FJson sample_file)))
                      (snd (load_tokens (Some (FJson sample_file)) tm_init)))
     = inl JSONDecodeError.
Proof. split; [|split]; vm_compute; reflexivity. Qed.

(** C6 (amended): [save_tokens] overwrites the file in place: its
    operations are the truncating open and the dump of the new record, so
    a crash leaves the old file, an empty file, or the complete new
    record. The new record preserves the existing scopes, the store's
    in-memory [_scopes], which the save leaves unchanged: [[]] in a fresh
    store, and after a [load_tokens] that decoded a file (returning or
    raising [ValueError]) that file's scopes; a [load_tokens] that did not
    decode a file leaves the store as it was. The Flink client's
    [_save_tokens] also overwrites in place and copies the scopes of the
    file it read. *)
Theorem save_tokens_in_place (a r now : string) (tm : token_manager) (f : option ftext) :
  save_tokens_ops a r now tm = [OpenW; Dump (saved_record a r now tm)]
  /\ (forall k, crashed_save k a r now tm f = f
                \/ crashed_save k a r now tm f = Some FEmpty
                \/ crashed_save k a r now tm f = Some (FJson (saved_record a r now tm)))
  /\ snd (save_tokens a r now tm f) = Some (FJson (saved_record a r now tm))
  /\ td_scopes (saved_record a r now tm) = tm_scopes tm
  /\ tm_scopes (fst (save_tokens a r now tm f)) = tm_scopes tm
  /\ tm_scopes tm_init = []
  /\ (forall f0 tm0 res, load_tokens f0 tm0 = (res, tm) ->
        (exists d, f0 = Some (FJson d) /\ td_scopes (saved_record a r now tm) = td_scopes d)
        \/ ((forall d, f0 <> Some (FJson d)) /\ tm = tm0))
  /\ (forall s ops, client_save_ops s = Some ops ->
        exists d d', token_file s = Some (FJson d) /\ ops = [OpenW; Dump d']
                     /\ td_scopes d' = td_scopes d).
Proof.
  split; [reflexivity|split; [|split; [reflexivity|split; [reflexivity|
    split; [reflexivity|split; [reflexivity|split]]]]]].
  - unfold crashed_save. intros [|[|k]]; cbn.
    + left; reflexivity.
    + right; left; reflexivity.
    + right; right. destruct k; reflexivity.
  - intros f0 tm0 res H. destruct f0 as [[| |d]|]; simpl in H;
      try (right; injection H as _ ->; split; [intros d' Hd; discriminate|reflexivity]).
    left. exists d. split; [reflexivity|].
    destruct (td_access_token d), (td_refresh_token d);
      try (injection H as _ <-; reflexivity).
    destruct (negb _ && negb _); injection H as _ <-; reflexivity.
  - intros s ops H. unfold client_save_ops in H.
    destruct (token_file s) as [[| |d]|]; try discriminate.
    injection H as <-. eexists _, _. split; [reflexivity|split; reflexivity].
Qed.

(** A file with an empty access token and the scope "chat:read": the load
    raises [ValueError] after taking the scope, and the next save writes
    it. *)
Lemma save_tokens_in_place_witness :
  let d := {| td_access_token := Some EmptyString; td_refresh_token := Some "r0"%string;
              td_scopes := ["chat:read"%string]; td_updated_at := None |} in
  load_tokens (Some (FJson d)) tm_init
    = (inl ValueError, snd (load_tokens (Some (FJson d)) tm_init))
  /\ td_scopes (saved_record "new" "r1" "2026-10-15T00:00:00+00:00"
                 (snd (load_tokens (Some (FJson d)) tm_init)))
     = ["chat:read"%string].
Proof.
  intros d.
  assert (H : load_tokens (Some (FJson d)) tm_init
              = (inl ValueError, snd (load_tokens (Some (FJson d)) tm_init))) by reflexivity.
  split; [exact H|].
  destruct (save_tokens_in_place "new" "r1" "2026-10-15T00:00:00+00:00"
              (snd (load_tokens (Some (FJson d)) tm_init)) None)
    as (_ & _ & _ & _ & _ & _ & L & _).
  destruct (L _ _ _ H) as [(d' & Ed & Es) | [Hn _]].
  - rewrite Es. injection Ed as <-. reflexivity.
  - exfalso. exact (Hn d eq_refl).
Defined.

(** C7: for non-empty tokens [a] and [r], [save_tokens a r] followed by
    [load_tokens] returns [(a, r, scopes)] where [scopes] are the scopes
    the store held before the save, and leaves the store as the save did. *)
Theorem save_then_load (a r now : string) (tm : token_manager) (f : option ftext) :
  a <> EmptyString -> r <> EmptyString ->
  load_tokens (snd (save_tokens a r now tm f)) (fst (save_tokens a r now tm f))
    = (inr (a, r, tm_scopes tm), fst (save_tokens a r now tm f)).
Proof.
  intros Ha Hr. simpl. unfold truthy.
  destruct (String.eqb_spec a EmptyString); [contradiction|].
  destruct (String.eqb_spec r EmptyString); [contradiction|].
  reflexivity.
Qed.

(** Load the sample file, save ("new", "r1"), load again. *)
Lemma save_then_load_witness :
  load_tokens (snd (save_tokens "new" "r1" "2026-10-15T00:00:00+00:00"
                      (snd (load_tokens (Some (FJson sample_file)) tm_init)) (Some (FJson sample_file))))
              (fst (save_tokens "new" "r1" "2026-10-15T00:00:00+00:00"
                      (snd (load_tokens (Some (FJson sample_file)) tm_init)) (Some (FJson sample_file))))
  = (inr ("new"%string, "r1"%string, ["clips:edit"%string]),
     fst (save_tokens "new" "r1" "2026-10-15T00:00:00+00:00"
            (snd (load_tokens (Some (FJson sample_file)) tm_init)) (Some (FJson sample_file)))).
Proof.
  apply save_then_load; discriminate.
Defined.

End TokenManagerProofs.

(* ================================================================== *)
(** * Proofs: stream monitoring service *)
(* ================================================================== *)

Module MonitorProofs.
Import Monitor.

(** The rank loop, when no exception escapes it, computes the two
    threshold sets of [top_ranked]. *)
Lemma rank_loop_ok w rs ids tj tl tj' tl' ids' :
  rank_loop w rs ids tj tl = (Some (tj', tl'), ids') ->
  tj' = tj ∪ list_to_set (map (fun p => lower (user_login p.2))
                               (List.filter (fun p => (p.1 <=? JOIN_THRESHOLD)%nat) rs))
  /\ tl' = tl ∪ list_to_set (map (fun p => lower (user_login p.2))
                               (List.filter (fun p => (p.1 <=? LEAVE_THRESHOLD)%nat) rs)).
Proof.
  revert ids tj tl. induction rs as [|[rank st] rs IH]; intros ids tj tl H; simpl in H.
  - injection H as <- <- _. simpl. split; set_solver.
  - destruct (user_id st) as [bid|]; [|discriminate].
    destruct (redis_up w); [|discriminate].
    destruct (IH _ _ _ H) as [H1 H2]. simpl.
    destruct (rank <=? JOIN_THRESHOLD)%nat, (rank <=? LEAVE_THRESHOLD)%nat;
      simpl; split; set_solver.
Qed.

Lemma join_loop_bounds w b cs j :
  j ⊆ join_loop w b cs j /\ join_loop w b cs j ⊆ j ∪ list_to_set cs.
Proof.
  unfold join_loop. revert j. induction cs as [|c cs IH]; intros j; simpl; [set_solver|].
  destruct (b && join_room_ok w c); destruct (IH ({[c]} ∪ j)) || destruct (IH j); set_solver.
Qed.

Lemma leave_loop_bounds w b cs j :
  j ∖ list_to_set cs ⊆ leave_loop w b cs j /\ leave_loop w b cs j ⊆ j.
Proof.
  unfold leave_loop. revert j. induction cs as [|c cs IH]; intros j; simpl; [set_solver|].
  destruct (b && leave_room_ok w c); [destruct (IH (j ∖ {[c]})) | destruct (IH j)]; set_solver.
Qed.

Lemma manage_bounds w je le m :
  joined_channels (manage_chat_connections w je le m) ⊆ joined_channels m ∪ je
  /\ joined_channels m ∩ le ⊆ joined_channels (manage_chat_connections w je le m).
Proof.
  assert (JL : forall m', joined_channels m' = joined_channels m ->
     joined_channels (join_and_leave w (je ∖ joined_channels m) (joined_channels m ∖ le) m')
       ⊆ joined_channels m ∪ je
     /\ joined_channels m ∩ le
       ⊆ joined_channels (join_and_leave w (je ∖ joined_channels m) (joined_channels m ∖ le) m')).
  { intros m' Hm. unfold join_and_leave, set_joined. simpl. rewrite Hm.
    destruct (join_loop_bounds w (chat m') (elements (je ∖ joined_channels m)) (joined_channels m)) as [A B].
    destruct (leave_loop_bounds w (chat m') (elements (joined_channels m ∖ le))
                (join_loop w (chat m') (elements (je ∖ joined_channels m)) (joined_channels m))) as [C D].
    rewrite list_to_set_elements_L in B, C. split; set_solver. }
  unfold manage_chat_connections.
  destruct (negb _ && negb _).
  - destruct (chat_start_outcome w); [apply JL; reflexivity | set_solver | simpl; set_solver].
  - apply JL; reflexivity.
Qed.

(** One tick: a failed [get_streams] leaves [joined_channels] alone;
    otherwise it only grows by channels ranked at most 5 and keeps every
    joined channel ranked at most 10. *)
Lemma poll_bounds w m :
  match collect_streams w with
  | None => joined_channels (poll_top_streams w m) = joined_channels m
  | Some ss =>
      joined_channels (poll_top_streams w m) ⊆ joined_channels m ∪ top_ranked JOIN_THRESHOLD ss
      /\ joined_channels m ∩ top_ranked LEAVE_THRESHOLD ss ⊆ joined_channels (poll_top_streams w m)
  end.
Proof.
  unfold poll_top_streams. destruct (collect_streams w) as [ss|]; [|reflexivity].
  destruct (rank_loop w (enumerate1 ss) (broadcaster_ids m) ∅ ∅) as [[[tj tl]|] ids] eqn:R;
    [|simpl; set_solver].
  destruct (rank_loop_ok _ _ _ _ _ _ _ _ R) as [Hj Hl].
  assert (Tj : tj = top_ranked JOIN_THRESHOLD ss) by (rewrite Hj; unfold top_ranked; set_solver).
  assert (Tl : tl = top_ranked LEAVE_THRESHOLD ss) by (rewrite Hl; unfold top_ranked; set_solver).
  destruct (offline_loop _ _ _); [|simpl; set_solver].
  destruct (manage_bounds w tj tl (set_ids m ids)) as [A B].
  cbn [joined_channels set_ids] in A, B. rewrite <- Tj, <- Tl. split; assumption.
Qed.

Lemma top_ranked_mono k1 k2 ss : (k1 <= k2)%nat -> top_ranked k1 ss ⊆ top_ranked k2 ss.
Proof.
  intros Hk. unfold top_ranked. intros x.
  rewrite !elem_of_list_to_set, !list_elem_of_In, !in_map_iff.
  intros (p & Hp & Hin). exists p. split; [exact Hp|].
  apply filter_In in Hin as [Hin Hle]. apply filter_In. split; [exact Hin|].
  apply Nat.leb_le in Hle. apply Nat.leb_le. lia.
Qed.

(** C5: in every tick whose [get_streams] call delivered the streams [ss],
    [joined_channels] after the tick is included in [joined_channels]
    before it union the logins ranked at most [JOIN_THRESHOLD] in [ss]
    (which are among those ranked at most [LEAVE_THRESHOLD], so also in
    the union with top_leave), and no joined channel ranked at most
    [LEAVE_THRESHOLD] is left. Ticks whose [get_streams] failed change
    nothing (see [poll_error_keeps_joined]). *)
Theorem poll_joined_within_hysteresis w m ss :
  collect_streams w = Some ss ->
  joined_channels (poll_top_streams w m) ⊆ joined_channels m ∪ top_ranked JOIN_THRESHOLD ss
  /\ top_ranked JOIN_THRESHOLD ss ⊆ top_ranked LEAVE_THRESHOLD ss
  /\ joined_channels (poll_top_streams w m) ⊆ joined_channels m ∪ top_ranked LEAVE_THRESHOLD ss
  /\ joined_channels m ∩ top_ranked LEAVE_THRESHOLD ss ⊆ joined_channels (poll_top_streams w m).
Proof.
  intros Hc. pose proof (poll_bounds w m) as P. rewrite Hc in P. destruct P as [A B].
  pose proof (top_ranked_mono JOIN_THRESHOLD LEAVE_THRESHOLD ss ltac:(unfold JOIN_THRESHOLD, LEAVE_THRESHOLD; lia)).
  split; [exact A|split; [assumption|split; [set_solver|exact B]]].
Qed.

(** C9: when [get_streams] raises before [LEAVE_THRESHOLD] streams were
    collected, [joined_channels] is unchanged by the tick; and a channel
    leaves [joined_channels] only in a tick whose [get_streams] succeeded
    with streams [ss] in which it is not ranked at most [LEAVE_THRESHOLD]. *)
Theorem poll_error_keeps_joined w m :
  (streams_error w = true -> (length (streams_yielded w) < LEAVE_THRESHOLD)%nat ->
     joined_channels (poll_top_streams w m) = joined_channels m)
  /\ (forall c, c ∈ joined_channels m -> c ∉ joined_channels (poll_top_streams w m) ->
        exists ss, collect_streams w = Some ss /\ c ∉ top_ranked LEAVE_THRESHOLD ss).
Proof.
  pose proof (poll_bounds w m) as P. split.
  - intros He Hl. unfold collect_streams in P.
    destruct (Nat.leb_spec LEAVE_THRESHOLD (length (streams_yielded w))); [lia|].
    rewrite He in P. exact P.
  - intros c Hin Hout. destruct (collect_streams w) as [ss|].
    + exists ss. split; [reflexivity|]. destruct P as [_ B]. set_solver.
    + rewrite P in Hout. contradiction.
Qed.

(** Twelve live streams; "zulu" is left, "golf" (rank 7) is kept. *)
Lemma poll_joined_within_hysteresis_witness :
  collect_streams (sample_world false sample_streams) = Some (take 10 sample_streams)
  /\ joined_channels (poll_top_streams (sample_world false sample_streams) sample_monitor)
       ⊆ joined_channels sample_monitor ∪ top_ranked JOIN_THRESHOLD (take 10 sample_streams)
  /\ top_ranked JOIN_THRESHOLD (take 10 sample_streams) ⊆ top_ranked LEAVE_THRESHOLD (take 10 sample_streams)
  /\ joined_channels (poll_top_streams (sample_world false sample_streams) sample_monitor)
       ⊆ joined_channels sample_monitor ∪ top_ranked LEAVE_THRESHOLD (take 10 sample_streams)
  /\ joined_channels sample_monitor ∩ top_ranked LEAVE_THRESHOLD (take 10 sample_streams)
       ⊆ joined_channels (poll_top_streams (sample_world false sample_streams) sample_monitor).
Proof.
  split; [reflexivity|].
  apply poll_joined_within_hysteresis. reflexivity.
Defined.

(** A failed [get_streams] after three streams; and "zulu" leaving. *)
Lemma poll_error_keeps_joined_witness :
  (streams_error (sample_world true (take 3 sample_streams)) = true
   /\ (length (streams_yielded (sample_world true (take 3 sample_streams))) < LEAVE_THRESHOLD)%nat
   /\ joined_channels (poll_top_streams (sample_world true (take 3 sample_streams)) sample_monitor)
      = joined_channels sample_monitor)
  /\ ("zulu"%string ∈ joined_channels sample_monitor
      /\ ("zulu"%string ∉ joined_channels (poll_top_streams (sample_world false sample_streams) sample_monitor))
      /\ exists ss, collect_streams (sample_world false sample_streams) = Some ss
                    /\ "zulu"%string ∉ top_ranked LEAVE_THRESHOLD ss).
Proof.
  split.
  - assert (He : streams_error (sample_world true (take 3 sample_streams)) = true) by reflexivity.
    assert (Hl : (length (streams_yielded (sample_world true (take 3 sample_streams))) < LEAVE_THRESHOLD)%nat)
      by (vm_compute; lia).
    split; [exact He|split; [exact Hl|]].
    exact (proj1 (poll_error_keeps_joined (sample_world true (take 3 sample_streams)) sample_monitor) He Hl).
  - assert (Hin : "zulu"%string ∈ joined_channels sample_monitor)
      by (apply (bool_decide_unpack ("zulu"%string ∈ joined_channels sample_monitor)); vm_compute; exact I).
    assert (Hout : "zulu"%string ∉ joined_channels (poll_top_streams (sample_world false sample_streams) sample_monitor))
      by (apply (bool_decide_unpack ("zulu"%string ∉ joined_channels
                   (poll_top_streams (sample_world false sample_streams) sample_monitor)));
          vm_compute; exact I).
    split; [exact Hin|split; [exact Hout|]].
    exact (proj2 (poll_error_keeps_joined (sample_world false sample_streams) sample_monitor) _ Hin Hout).
Defined.

End MonitorProofs.

(* ================================================================== *)
(** * Further properties: spike detector *)
(* ================================================================== *)

Module DetectorMore.
Import Detector DetectorProofs.

(** The bucket map after a step, in every branch. *)
Lemma process_element_counts bid ts now st :
  message_counts (process_element bid ts now st).1
  = filter (fun kv : Z * Z => now - BASELINE_WINDOW_SECONDS <= kv.1)
      (<[ts `div` 1000 := default 0 (message_counts st !! (ts `div` 1000)) + 1]> (message_counts st)).
Proof.
  unfold process_element; cbn zeta.
  repeat match goal with
         | |- context [if ?b then _ else _] => destruct b
         | |- context [match ?x with Some _ => _ | None => _ end] => destruct x
         end; reflexivity.
Qed.

(** Sums, means and variances of a constant list. *)
Lemma sumQ_const (c : Z) l : Forall (fun x => x = c) l ->
  (sumQ l == inject_Z (Z.of_nat (length l)) * inject_Z c)%Q.
Proof.
  induction l as [|x l IH]; intros H; simpl.
  - reflexivity.
  - inversion H as [|? ? Hx Hl]; subst x. rewrite (IH Hl).
    rewrite Nat2Z.inj_succ, <- Z.add_1_r, inject_Z_plus. ring.
Qed.

Lemma sq_sum_const (c : Z) (m : Q) l : Forall (fun x => x = c) l -> (m == inject_Z c)%Q ->
  (fold_right (fun x acc => (inject_Z x - m) * (inject_Z x - m) + acc) 0 l == 0)%Q.
Proof.
  intros H Hm. induction H as [|x l Hx Hl IH]; simpl; [reflexivity|].
  subst x. rewrite IH, Hm. ring.
Qed.

Lemma varQ_const (c : Z) l : Forall (fun x => x = c) l -> (1 <= length l)%nat -> (varQ l == 0)%Q.
Proof.
  intros H Hlen. unfold varQ.
  assert (Hm : (meanQ l == inject_Z c)%Q).
  { unfold meanQ. rewrite (sumQ_const c l H). field.
    intros E. apply Qeq_alt in E. unfold inject_Z, Qcompare in E. simpl in E.
    apply Z.compare_eq in E. lia. }
  rewrite (sq_sum_const c (meanQ l) l H Hm). unfold Qdiv. apply Qmult_0_l.
Qed.

(** X2: a steady chat never triggers: if after the message every retained
    bucket holds the same count, no anomaly is emitted ([std_dev] is 0). *)
Theorem steady_chat_no_anomaly bid ts now st c :
  (forall k v, message_counts (process_element bid ts now st).1 !! k = Some v -> v = c) ->
  (process_element bid ts now st).2 = [].
Proof.
  intros Hc. rewrite process_element_counts in Hc.
  unfold process_element; cbn zeta.
  set (m2 := filter _ _) in *.
  destruct (length (map_to_list m2).*2 <? min_required)%nat; [reflexivity|].
  destruct (negb (2 <=? length (map_to_list m2).*2)%nat) eqn:H2; [reflexivity|].
  assert (HF : Forall (fun x => x = c) (map_to_list m2).*2).
  { apply Forall_forall. intros v Hv.
    apply list_elem_of_fmap in Hv as ([k v'] & -> & Hin).
    apply elem_of_map_to_list in Hin. exact (Hc k v' Hin). }
  assert (Hv : (varQ (map_to_list m2).*2 == 0)%Q).
  { apply (varQ_const c); [exact HF|].
    apply negb_false_iff, Nat.leb_le in H2. lia. }
  unfold exceeds, Qltb at 1.
  assert (Hle : Qle_bool (varQ (map_to_list m2).*2) 0 = true).
  { apply Qle_bool_iff. rewrite Hv. apply Qle_refl. }
  rewrite Hle. reflexivity.
Qed.

(** 300 seconds of one message per second, then one more message. *)
Lemma steady_chat_no_anomaly_witness :
  (forall k v, message_counts (process_element 7 1000000 1000 steady_state).1 !! k = Some v -> v = 1)
  /\ (process_element 7 1000000 1000 steady_state).2 = [].
Proof.
  assert (H : forall k v, message_counts (process_element 7 1000000 1000 steady_state).1 !! k = Some v -> v = 1).
  { intros k v Hk.
    assert (HF : map_Forall (fun _ v => v = 1) (message_counts (process_element 7 1000000 1000 steady_state).1)).
    { apply (bool_decide_unpack (map_Forall (fun _ v => v = 1)
               (message_counts (process_element 7 1000000 1000 steady_state).1))).
      vm_compute. exact I. }
    exact (map_Forall_lookup_1 _ _ k v HF Hk). }
  split; [exact H|]. exact (steady_chat_no_anomaly 7 1000000 1000 steady_state 1 H).
Defined.

End DetectorMore.

(* ================================================================== *)
(** * Further properties: clip creator and Twitch client *)
(* ================================================================== *)

Module TwitchMore.
Import Twitch TwitchProofs.

Section Weights.
Variable w : event -> Z.

Lemma wsum_app l1 l2 : wsum w (l1 ++ l2) = wsum w l1 + wsum w l2.
Proof. induction l1 as [|e l IH]; simpl; [reflexivity|]. rewrite IH. lia. Qed.

Lemma bnd_weaken {A} k k' (m : M A) : k <= k' -> bounded w k m -> bounded w k' m.
Proof. intros Hk H s. destruct (H s) as (tl & T & B). exists tl. split; [exact T|lia]. Qed.

Lemma bnd_ret {A} k (x : A) : 0 <= k -> bounded w k (ret x).
Proof. intros Hk s. exists []. simpl. split; [symmetry; apply app_nil_r|exact Hk]. Qed.

Lemma bnd_raise {A} k e : 0 <= k -> bounded w k (@raise A e).
Proof. intros Hk s. exists []. simpl. split; [symmetry; apply app_nil_r|exact Hk]. Qed.

Lemma bnd_get k : 0 <= k -> bounded w k get.
Proof. intros Hk s. exists []. simpl. split; [symmetry; apply app_nil_r|exact Hk]. Qed.

Lemma bnd_set_tokens k a r : 0 <= k -> bounded w k (set_tokens a r).
Proof. intros Hk s. exists []. simpl. split; [symmetry; apply app_nil_r|exact Hk]. Qed.

Lemma bnd_set_file k f : 0 <= k -> bounded w k (set_file f).
Proof. intros Hk s. exists []. simpl. split; [symmetry; apply app_nil_r|exact Hk]. Qed.

Lemma bnd_set_catalog k c : 0 <= k -> bounded w k (set_catalog c).
Proof. intros Hk s. exists []. simpl. split; [symmetry; apply app_nil_r|exact Hk]. Qed.

Lemma bnd_next_outcome k : 0 <= k -> bounded w k next_outcome.
Proof.
  intros Hk s. exists []. unfold next_outcome.
  destruct (script s); simpl; (split; [symmetry; apply app_nil_r|exact Hk]).
Qed.

Lemma bnd_emit k ev : w ev <= k -> bounded w k (emit ev).
Proof. intros Hk s. exists [ev]. simpl. split; [reflexivity|lia]. Qed.

Lemma bnd_bind {A B} a b (m : M A) (f : A -> M B) :
  0 <= b -> bounded w a m -> (forall x, bounded w b (f x)) -> bounded w (a + b) (bind m f).
Proof.
  intros Hb Hm Hf s. unfold bind. destruct (Hm s) as (t1 & T1 & B1).
  destruct (m s) as [[e|x] s1]; simpl in *.
  - exists t1. split; [exact T1|lia].
  - destruct (Hf x s1) as (t2 & T2 & B2). exists (t1 ++ t2).
    rewrite T2, T1, app_assoc, wsum_app. split; [reflexivity|lia].
Qed.

Lemma bnd_catch {A} a b (m : M A) (h : exc -> M A) :
  0 <= b -> bounded w a m -> (forall e, bounded w b (h e)) -> bounded w (a + b) (catch m h).
Proof.
  intros Hb Hm Hh s. unfold catch. destruct (Hm s) as (t1 & T1 & B1).
  destruct (m s) as [[e|x] s1]; simpl in *.
  - destruct (Hh e s1) as (t2 & T2 & B2). exists (t1 ++ t2).
    rewrite T2, T1, app_assoc, wsum_app. split; [reflexivity|lia].
  - exists t1. split; [exact T1|lia].
Qed.

Lemma bnd_attempt {A} k (m : M A) : bounded w k m -> bounded w k (attempt m).
Proof.
  intros H s. destruct (H s) as (tl & T & B). exists tl. unfold attempt.
  destruct (m s). split; assumption.
Qed.

Lemma bnd_bind' {A B} a b k (m : M A) (f : A -> M B) :
  a + b <= k -> 0 <= b -> bounded w a m -> (forall x, bounded w b (f x)) -> bounded w k (bind m f).
Proof. intros Hk Hb Hm Hf. apply (bnd_weaken (a + b)); [exact Hk|]. apply bnd_bind; assumption. Qed.

Lemma bnd_catch' {A} a b k (m : M A) (h : exc -> M A) :
  a + b <= k -> 0 <= b -> bounded w a m -> (forall e, bounded w b (h e)) -> bounded w k (catch m h).
Proof. intros Hk Hb Hm Hh. apply (bnd_weaken (a + b)); [exact Hk|]. apply bnd_catch; assumption. Qed.

End Weights.

Ltac bnd :=
  lazymatch goal with
  | |- bounded _ ?k (bind _ _) =>
      first [ apply (bnd_bind' _ 0 k k); [lia|lia|bnd|intros; bnd]
            | apply (bnd_bind' _ 1 (k - 1) k); [lia|lia|bnd|intros; bnd]
            | apply (bnd_bind' _ k 0 k); [lia|lia|bnd|intros; bnd] ]
  | |- bounded _ ?k (catch _ _) =>
      first [ apply (bnd_catch' _ k 0 k); [lia|lia|bnd|intros; bnd]
            | apply (bnd_catch' _ 0 k k); [lia|lia|bnd|intros; bnd] ]
  | |- bounded _ _ (attempt _) => apply bnd_attempt; bnd
  | |- bounded _ _ (ret _) => apply bnd_ret; lia
  | |- bounded _ _ (raise _) => apply bnd_raise; lia
  | |- bounded _ _ get => apply bnd_get; lia
  | |- bounded _ _ (set_tokens _ _) => apply bnd_set_tokens; lia
  | |- bounded _ _ (set_file _) => apply bnd_set_file; lia
  | |- bounded _ _ (set_catalog _) => apply bnd_set_catalog; lia
  | |- bounded _ _ next_outcome => apply bnd_next_outcome; lia
  | |- bounded _ _ (emit _) => apply bnd_emit; cbn; lia
  | |- bounded _ _ (match ?x with _ => _ end) => destruct x; bnd
  | |- bounded _ _ (if ?b then _ else _) => destruct b; bnd
  | |- bounded _ _ (let _ := _ in _) => cbv zeta; bnd
  | |- bounded _ _ ?m => let m' := eval red in m in change m with m'; bnd
  end.


(** X5: one [create_clip] call sends at most two [POST helix/clips]
    requests (the first attempt and the retry after a 401), at most one
    token refresh, and never a [GET helix/clips], whatever the replies. *)
Theorem create_clip_request_bounds (broadcaster_id : Z) :
  bounded clip_posts 2 (create_clip broadcaster_id)
  /\ bounded token_posts 1 (create_clip broadcaster_id)
  /\ bounded clip_gets 0 (create_clip broadcaster_id).
Proof. split; [|split]; bnd. Qed.

(** X6: one [get_clip] call sends at most two [GET helix/clips] requests,
    at most one token refresh, and never a [POST helix/clips]. *)
Theorem get_clip_request_bounds (clip_id : string) :
  bounded clip_gets 2 (get_clip clip_id)
  /\ bounded token_posts 1 (get_clip clip_id)
  /\ bounded clip_posts 0 (get_clip clip_id).
Proof. split; [|split]; bnd. Qed.

(** The waits of the retry loop add up to at most its positive delays. *)
Lemma retry_loop_sleep ds b c : bounded sleep_secs (positive_delays ds) (retry_loop ds b c).
Proof.
  revert c; induction ds as [|d ds IH]; intros c; simpl.
  - apply bnd_ret. lia.
  - assert (0 <= positive_delays ds).
    { clear IH. induction ds as [|d' ds' IH']; simpl; [lia|]. destruct (0 <? d') eqn:E; [apply Z.ltb_lt in E|]; lia. }
    apply (bnd_bind' _ (if 0 <? d then d else 0) (positive_delays ds)); [lia|lia| |intros].
    + destruct (0 <? d) eqn:E; [apply Z.ltb_lt in E; apply bnd_emit; simpl; lia|apply bnd_ret; lia].
    + apply (bnd_bind' _ 0 (positive_delays ds)); [lia|lia| |intros r].
      * apply bnd_attempt. bnd.
      * destruct r as [e|c'].
        -- destruct e as [| | | | | | |st [|]]; try (apply bnd_ret; lia); apply IH.
        -- destruct (truthy_id c'); [apply bnd_ret; lia|apply IH].
Qed.

(** X7: handling one anomaly, [ClipCreator.process_element] sleeps at
    most 24 seconds in total: the 3 s and 6 s retry backoffs and the 15 s
    wait before fetching the clip, whatever the Twitch replies. *)
Theorem clip_creator_sleep_bound (a : anomaly_in) : bounded sleep_secs 24 (process_element a).
Proof.
  unfold process_element.
  apply (bnd_catch' _ 24 0); [lia|lia| |intros; apply bnd_ret; lia].
  apply (bnd_bind' _ 9 15); [lia|lia|apply retry_loop_sleep|intros c].
  destruct c as [c|]; [|apply bnd_ret; lia].
  destruct (String.eqb c EmptyString); [apply bnd_ret; lia|].
  unfold store_clip. apply (bnd_bind' _ 15 0); [lia|lia|apply bnd_emit; simpl; lia|intros].
  bnd.
Qed.

(** X8: a token refresh that raises leaves the client's two tokens, the
    token file and the catalog as they were: the tokens are only assigned
    after the reply decoded and carried an access token, and
    [_save_tokens] swallows its own errors. *)
Theorem refresh_failure_keeps_state s e s' :
  refresh_access_token s = (inl e, s') ->
  access_token s' = access_token s /\ refresh_token s' = refresh_token s
  /\ token_file s' = token_file s /\ catalog s' = catalog s.
Proof.
  unfold refresh_access_token, bind, get, request, bind, emit, next_outcome, raise_for_status, json, ret, raise.
  destruct (script s) as [|o rest]; [intros H; inversion H; subst; simpl; auto|].
  destruct o as [st p| |]; intros H; try (inversion H; subst; simpl; auto; fail).
  cbn in H.
  destruct (negb (st =? 200)); [destruct ((400 <=? st) && (st <? 600))|]; cbn in H;
    try (inversion H; subst; simpl; auto; fail);
  destruct p as [|b]; cbn in H; try (inversion H; subst; simpl; auto; fail);
  destruct (b_access_token b); cbn in H; try (inversion H; subst; simpl; auto; fail);
  unfold save_tokens_client, set_tokens, get, bind in H; cbn in H;
  destruct (client_save_ops _); cbn in H; discriminate.
Qed.


(** Catalog-preserving computations. *)
Lemma kc_ret {A} (x : A) : keeps_catalog (ret x). Proof. intros s; reflexivity. Qed.
Lemma kc_raise {A} e : keeps_catalog (@raise A e). Proof. intros s; reflexivity. Qed.
Lemma kc_get : keeps_catalog get. Proof. intros s; reflexivity. Qed.
Lemma kc_emit ev : keeps_catalog (emit ev). Proof. intros s; reflexivity. Qed.
Lemma kc_set_tokens a r : keeps_catalog (set_tokens a r). Proof. intros s; reflexivity. Qed.
Lemma kc_set_file f : keeps_catalog (set_file f). Proof. intros s; reflexivity. Qed.
Lemma kc_next_outcome : keeps_catalog next_outcome.
Proof. intros s. unfold next_outcome. destruct (script s); reflexivity. Qed.
Lemma kc_bind {A B} (m : M A) (f : A -> M B) :
  keeps_catalog m -> (forall x, keeps_catalog (f x)) -> keeps_catalog (bind m f).
Proof.
  intros Hm Hf s. unfold bind. specialize (Hm s). destruct (m s) as [[e|x] s'];
  simpl in *; [exact Hm|]. rewrite Hf. exact Hm.
Qed.
Lemma kc_catch {A} (m : M A) h :
  keeps_catalog m -> (forall e, keeps_catalog (h e)) -> keeps_catalog (catch m h).
Proof.
  intros Hm Hh s. unfold catch. specialize (Hm s). destruct (m s) as [[e|x] s'];
  simpl in *; [rewrite Hh|]; exact Hm.
Qed.
Lemma kc_attempt {A} (m : M A) : keeps_catalog m -> keeps_catalog (attempt m).
Proof. intros Hm s. unfold attempt. specialize (Hm s). destruct (m s). exact Hm. Qed.

Ltac kc :=
  lazymatch goal with
  | |- keeps_catalog (bind _ _) => apply kc_bind; [kc|intros; kc]
  | |- keeps_catalog (catch _ _) => apply kc_catch; [kc|intros; kc]
  | |- keeps_catalog (attempt _) => apply kc_attempt; kc
  | |- keeps_catalog (ret _) => apply kc_ret
  | |- keeps_catalog (raise _) => apply kc_raise
  | |- keeps_catalog get => apply kc_get
  | |- keeps_catalog (emit _) => apply kc_emit
  | |- keeps_catalog (set_tokens _ _) => apply kc_set_tokens
  | |- keeps_catalog (set_file _) => apply kc_set_file
  | |- keeps_catalog next_outcome => apply kc_next_outcome
  | |- keeps_catalog (match ?x with _ => _ end) => destruct x; kc
  | |- keeps_catalog (if ?b then _ else _) => destruct b; kc
  | |- keeps_catalog (let _ := _ in _) => cbv zeta; kc
  | |- keeps_catalog ?m => let m' := eval red in m in change m with m'; kc
  end.

Lemma kc_create_clip b : keeps_catalog (create_clip b). Proof. kc. Qed.
Lemma kc_get_clip c : keeps_catalog (get_clip c). Proof. kc. Qed.
Lemma kc_retry_loop ds b c : keeps_catalog (retry_loop ds b c).
Proof.
  revert c; induction ds as [|d ds IH]; intros c; simpl; [kc|].
  apply kc_bind; [kc|intros _]. apply kc_bind; [kc|intros r].
  destruct r as [e|c']; [destruct e as [| | | | | | |st [|]]; try kc; apply IH|].
  destruct (truthy_id c'); [kc|apply IH].
Qed.

(** The effect of [insert_clip] on the catalog. *)
Lemma insert_clip_effect row s :
  match insert_clip row s with
  | (inl e, s') => e = EDatabase /\ s' = s /\ db_up s = false
  | (inr _, s') =>
      db_up s = true
      /\ (exists tl, catalog s' = catalog s ++ tl /\ (tl = [] \/ tl = [row]))
      /\ In (r_clip_id row) (clip_ids (catalog s'))
      /\ (NoDup (clip_ids (catalog s)) -> NoDup (clip_ids (catalog s')))
  end.
Proof.
  unfold insert_clip, bind, get, emit, ret, raise, set_catalog. cbn.
  destruct (db_up s) eqn:Hdb; [|auto]. cbn.
  destruct (existsb _ (catalog s)) eqn:Hex; cbn.
  - apply existsb_exists in Hex as (r & Hin & Heq). apply String.eqb_eq in Heq.
    repeat split; [exists []; split; [symmetry; apply app_nil_r|auto]| |auto].
    unfold clip_ids. rewrite <- Heq. apply in_map. exact Hin.
  - repeat split; [exists [row]; auto| |].
    + unfold clip_ids. rewrite map_app. apply in_or_app. right. left. reflexivity.
    + intros Hnd. unfold clip_ids. rewrite map_app. apply NoDup_app. split; [exact Hnd|split].
      * intros x Hx Hx'. apply list_elem_of_In in Hx. apply list_elem_of_In in Hx'.
        simpl in Hx'. destruct Hx' as [<-|[]].
        apply in_map_iff in Hx as (r & Er & Hr).
        assert (existsb (fun r => String.eqb (r_clip_id r) (r_clip_id row)) (catalog s) = true)
          by (apply existsb_exists; exists r; split; [exact Hr|apply String.eqb_eq; exact Er]).
        congruence.
      * apply NoDup_singleton.
Qed.

(** X10: [insert_clip] with the database down raises and changes
    nothing; otherwise it appends the row, or leaves the catalog as it is
    when a row with the same clip id exists ([ON CONFLICT DO NOTHING]);
    afterwards the clip id is in the catalog, and unique clip ids stay
    unique. *)
Theorem insert_clip_on_conflict (row : clip_row) s :
  match insert_clip row s with
  | (inl e, s') => e = EDatabase /\ s' = s /\ db_up s = false
  | (inr _, s') =>
      db_up s = true
      /\ (exists tl, catalog s' = catalog s ++ tl /\ (tl = [] \/ tl = [row]))
      /\ (existsb (fun r => String.eqb (r_clip_id r) (r_clip_id row)) (catalog s) = true
          -> catalog s' = catalog s)
      /\ In (r_clip_id row) (clip_ids (catalog s'))
      /\ (NoDup (clip_ids (catalog s)) -> NoDup (clip_ids (catalog s')))
  end.
Proof.
  pose proof (insert_clip_effect row s) as H.
  unfold insert_clip, bind, get, emit, ret, raise, set_catalog in *. cbn in *.
  destruct (db_up s); [|exact H]. cbn in *.
  destruct (existsb _ (catalog s)) eqn:Hex; cbn in *;
    destruct H as (U & T & I & N); repeat split; auto; discriminate.
Qed.

(** Computations appending at most one row. *)
Lemma ar_kc P {A} (m : M A) : keeps_catalog m -> appends_row P m.
Proof.
  intros H s. exists []. rewrite H, app_nil_r. split; [reflexivity|split; auto].
Qed.

Lemma ar_bind_l P {A B} (m : M A) (f : A -> M B) :
  keeps_catalog m -> (forall x, appends_row P (f x)) -> appends_row P (bind m f).
Proof.
  intros Hm Hf s. unfold bind. specialize (Hm s). destruct (m s) as [[e|x] s'] eqn:E; simpl in Hm.
  - exists []. simpl. rewrite Hm, app_nil_r. split; [reflexivity|split; auto].
  - destruct (Hf x s') as (tl & T & R & N). exists tl. rewrite T, Hm. split; [reflexivity|split; [exact R|]].
    rewrite <- Hm. rewrite <- T. exact N.
Qed.

Lemma ar_bind_r P {A B} (m : M A) (f : A -> M B) :
  appends_row P m -> (forall x, keeps_catalog (f x)) -> appends_row P (bind m f).
Proof.
  intros Hm Hf s. unfold bind. destruct (Hm s) as (tl & T & R & N).
  destruct (m s) as [[e|x] s'] eqn:E; simpl in *.
  - exists tl. auto.
  - exists tl. rewrite Hf. auto.
Qed.

Lemma ar_catch P {A} (m : M A) h :
  appends_row P m -> (forall e, keeps_catalog (h e)) -> appends_row P (catch m h).
Proof.
  intros Hm Hh s. unfold catch. destruct (Hm s) as (tl & T & R & N).
  destruct (m s) as [[e|x] s'] eqn:E; simpl in *.
  - exists tl. rewrite Hh. auto.
  - exists tl. auto.
Qed.

Lemma ar_insert_clip P row : P row -> appends_row P (insert_clip row).
Proof.
  intros HP s. pose proof (insert_clip_effect row s) as H.
  destruct (insert_clip row s) as [[e|x] s'] eqn:E; simpl.
  - destruct H as (_ & -> & _). exists []. rewrite app_nil_r. auto.
  - destruct H as (_ & (tl & T & [Et|Et]) & _ & N); exists tl.
    + auto.
    + split; [exact T|split; [right; exists row; auto|exact N]].
Qed.

(** X11: handling one anomaly never removes or changes a catalog row:
    [ClipCreator.process_element] appends at most one row, whose
    broadcaster and detection time are the anomaly's, and keeps the clip
    ids unique. *)
Theorem clip_creator_catalog_growth (a : anomaly_in) s :
  let s' := snd (process_element a s) in
  exists tl, catalog s' = catalog s ++ tl
    /\ (tl = [] \/ exists r, tl = [r] /\ r_broadcaster_id r = an_broadcaster_id a
                                      /\ r_detected_at r = an_detected_at a)
    /\ (NoDup (clip_ids (catalog s)) -> NoDup (clip_ids (catalog s'))).
Proof.
  revert s. change (appends_row (fun r => r_broadcaster_id r = an_broadcaster_id a
                                   /\ r_detected_at r = an_detected_at a) (process_element a)).
  unfold process_element. apply ar_catch; [|intros; kc].
  apply ar_bind_l; [apply kc_retry_loop|intros c].
  destruct c as [c|]; [|apply ar_kc; kc].
  destruct (String.eqb c EmptyString); [apply ar_kc; kc|].
  unfold store_clip. apply ar_bind_l; [kc|intros _].
  apply ar_bind_l; [apply kc_get_clip|intros o].
  destruct o as [it|]; [|apply ar_kc; kc].
  destruct (item_truthy it); [|apply ar_kc; kc].
  cbv zeta. apply ar_bind_r; [apply ar_insert_clip; simpl; auto|intros; kc].
Qed.


(** With the network down the refresh raises [EConnection], and the
    worker's tokens and file are those it had. *)
Lemma refresh_failure_keeps_state_witness :
  refresh_access_token (sample_env []) = (inl EConnection, snd (refresh_access_token (sample_env [])))
  /\ access_token (snd (refresh_access_token (sample_env []))) = Some "old"%string
  /\ refresh_token (snd (refresh_access_token (sample_env []))) = Some "r0"%string
  /\ token_file (snd (refresh_access_token (sample_env []))) = Some (FJson sample_file).
Proof.
  assert (H : refresh_access_token (sample_env [])
              = (inl EConnection, snd (refresh_access_token (sample_env [])))) by reflexivity.
  destruct (refresh_failure_keeps_state _ _ _ H) as (H1 & H2 & H3 & _).
  split; [exact H|split; [exact H1|split; [exact H2|exact H3]]].
Defined.

End TwitchMore.

(* ================================================================== *)
(** * Further properties: token files across the two services *)
(* ================================================================== *)

Module TokenManagerMore.
Import Twitch TokenManager.

(** X13: two saves in a row leave the store and the file exactly as the
    second save alone would: the last writer wins, and the scopes written
    are still the store's. *)
Theorem save_twice_last_writer a1 r1 now1 a2 r2 now2 tm f :
  save_tokens a2 r2 now2 (fst (save_tokens a1 r1 now1 tm f)) (snd (save_tokens a1 r1 now1 tm f))
  = save_tokens a2 r2 now2 tm f.
Proof. reflexivity. Qed.

(** X14: a file written by the monitor's [TokenManager.save_tokens] with
    non-empty tokens is accepted by the Flink client's [_load_tokens],
    which reads back exactly those tokens. *)
Theorem monitor_save_then_client_load a r now tm f :
  a <> EmptyString -> r <> EmptyString ->
  load_tokens_client (snd (save_tokens a r now tm f)) = inr (Some a, Some r).
Proof.
  intros Ha Hr. simpl. unfold truthy.
  destruct (String.eqb_spec a EmptyString); [contradiction|].
  destruct (String.eqb_spec r EmptyString); [contradiction|].
  reflexivity.
Qed.


(** The monitor saves ("new", "r1"); the Flink client loads them. *)
Lemma monitor_save_then_client_load_witness :
  load_tokens_client (snd (save_tokens "new" "r1" "2026-10-15T00:00:00+00:00" tm_init None))
  = inr (Some "new"%string, Some "r1"%string).
Proof. apply monitor_save_then_client_load; discriminate. Defined.


End TokenManagerMore.

(* ================================================================== *)
(** * Further properties: command filter *)
(* ================================================================== *)

Module CommandsMore.
Import Commands.

(** X16: the command filter fails (an exception escapes) exactly when
    some value decodes to JSON that is not an object, or to an object
    whose ["text"] is not a string; otherwise it keeps, in order, the
    decoded objects whose text (absent counts as empty) does not start a
    command, drops undecodable values, and filtering its output again
    changes nothing. *)
Theorem command_filter_failure_and_idempotence (vs : list value) :
  let keep v := match v with
                | VJson (TStr s) => negb (command_match s)
                | VJson TAbsent => true
                | _ => false
                end in
  (command_filter vs = None <-> In (VJson TOther) vs \/ In VNonObject vs)
  /\ (forall out, command_filter vs = Some out ->
        out = List.filter keep vs /\ command_filter out = Some out).
Proof.
  intros keep. induction vs as [|v vs [IHn IHs]]; simpl.
  - split; [split; [discriminate|intros [[]|[]]]|intros out H; injection H as <-; auto].
  - destruct (command_filter vs) as [rest|] eqn:Hr.
    + assert (Hn : ~ (In (VJson TOther) vs \/ In VNonObject vs))
        by (intros Hin; apply IHn in Hin; discriminate).
      destruct (IHs rest eq_refl) as [Er Fr]. subst rest.
      assert (Hok : forall P : Prop, ~ P -> (Some (List.filter keep vs) = None <-> P)).
      { intros P HP. split; [discriminate|intros p; contradiction]. }
      destruct v as [[s| |]| |]; simpl.
      * destruct (command_match s) eqn:Hc; simpl.
        -- split; [apply Hok; intros [[E|E]|[E|E]]; try discriminate; tauto|].
           intros out H; injection H as <-. auto.
        -- split; [split; [discriminate|intros [[E|E]|[E|E]]; try discriminate; tauto]|].
           intros out H; injection H as <-. simpl. rewrite Hc. simpl. rewrite Fr. auto.
      * split; [split; [discriminate|intros [[E|E]|[E|E]]; try discriminate; tauto]|].
        intros out H; injection H as <-. simpl. rewrite Fr. auto.
      * split; [split; [auto|auto]|intros out H; discriminate].
      * split; [split; [auto|auto]|intros out H; discriminate].
      * split; [apply Hok; intros [[E|E]|[E|E]]; try discriminate; tauto|].
        intros out H; injection H as <-. auto.
    + assert (Hi : In (VJson TOther) vs \/ In VNonObject vs) by (apply IHn; reflexivity).
      destruct (process_element v);
        (split; [split; [intros _; tauto|auto]|intros out H; discriminate]).
Qed.

End CommandsMore.

(* ================================================================== *)
(** * Further properties: stream monitoring service *)
(* ================================================================== *)

Module MonitorMore.
Import Monitor MonitorProofs.
#[local] Open Scope nat_scope.

(** A set built from a list is no larger than the list. *)
Lemma size_list_to_set_le (l : list string) : size (list_to_set l : gset string) <= length l.
Proof.
  induction l as [|x l IH].
  - change (size (∅ : gset string) <= 0). rewrite size_empty. lia.
  - change (size ({[x]} ∪ (list_to_set l : gset string)) <= S (length l)).
  rewrite size_union_alt, size_singleton.
  pose proof (subseteq_size (list_to_set l ∖ {[x]} : gset string) (list_to_set l) ltac:(set_solver)). lia.
Qed.

(** At most [k + 1 - s] positions of [seq s _] are at most [k]. *)
Lemma filter_rank_length {A} k s (l : list A) :
  length (List.filter (fun p : nat * A => (p.1 <=? k)%nat) (combine (seq s (length l)) l)) <= k + 1 - s.
Proof.
  revert s. induction l as [|x l IH]; intros s; simpl; [lia|].
  destruct (Nat.leb_spec s k) as [H|H]; simpl.
  - specialize (IH (S s)). lia.
  - specialize (IH (S s)). lia.
Qed.

(** At most [k] logins are ranked at most [k]. *)
Lemma size_top_ranked k ss : size (top_ranked k ss) <= k.
Proof.
  unfold top_ranked. etransitivity; [apply size_list_to_set_le|].
  rewrite length_map. unfold enumerate1. pose proof (filter_rank_length k 1 ss). lia.
Qed.

(** X17: one tick joins at most [JOIN_THRESHOLD] (5) new channels,
    whatever the streams, Redis and the chat client do. *)
Theorem poll_joins_at_most_threshold w m :
  size (joined_channels (poll_top_streams w m) ∖ joined_channels m) <= JOIN_THRESHOLD.
Proof.
  pose proof (poll_bounds w m) as P.
  destruct (collect_streams w) as [ss|].
  - destruct P as [A _].
    etransitivity; [apply subseteq_size|apply (size_top_ranked JOIN_THRESHOLD ss)]. set_solver.
  - rewrite P, difference_diag_L, size_empty. lia.
Qed.

(** Without a chat client, the join and leave loops change nothing. *)
Lemma join_loop_false w cs j : join_loop w false cs j = j.
Proof. unfold join_loop. revert j; induction cs; intros j; simpl; auto. Qed.
Lemma leave_loop_false w cs j : leave_loop w false cs j = j.
Proof. unfold leave_loop. revert j; induction cs; intros j; simpl; auto. Qed.

(** X18: the service is never joined to a channel without a chat
    client: if [joined_channels] is empty or [self.chat] is set before a
    tick, the same holds after it. *)
Theorem poll_chat_invariant w m :
  (joined_channels m = ∅ \/ chat m = true) ->
  (joined_channels (poll_top_streams w m) = ∅ \/ chat (poll_top_streams w m) = true).
Proof.
  intros Hinv.
  assert (MC : forall tj tl m', (joined_channels m' = ∅ \/ chat m' = true) ->
            joined_channels (manage_chat_connections w tj tl m') = ∅
            \/ chat (manage_chat_connections w tj tl m') = true).
  { intros tj tl m' H. unfold manage_chat_connections.
    destruct (chat m') eqn:Hc; simpl.
    - rewrite andb_false_r. right. unfold join_and_leave, set_joined. simpl. exact Hc.
    - destruct H as [H|H]; [|discriminate].
      destruct (bool_decide (tj ∖ joined_channels m' = ∅)) eqn:B; simpl.
      + left. unfold join_and_leave, set_joined. simpl. rewrite Hc, join_loop_false, leave_loop_false. exact H.
      + destruct (chat_start_outcome w); simpl; auto. }
  unfold poll_top_streams. destruct (collect_streams w) as [ss|]; [|exact Hinv].
  destruct (rank_loop _ _ _ _ _) as [[[tj tl]|] ids]; [|exact Hinv].
  destruct (offline_loop _ _ _); [apply MC|]; exact Hinv.
Qed.

(** With Redis up and every id an integer, the rank loop completes. *)
Lemma rank_loop_some w rs ids tj tl :
  Forall (fun p => is_Some (user_id p.2)) rs -> redis_up w = true ->
  exists r ids', rank_loop w rs ids tj tl = (Some r, ids').
Proof.
  intros Hall Hr. revert ids tj tl. induction Hall as [|[rank st] rs [b Hb] _ IH]; intros ids tj tl; simpl.
  - eauto.
  - simpl in Hb. rewrite Hb, Hr. apply IH.
Qed.

(** With Redis up, the offline check completes. *)
Lemma offline_loop_up w tl ls : redis_up w = true -> offline_loop w tl ls = Some tt.
Proof. intros Hr. induction ls as [|l ls IH]; simpl; [reflexivity|]. rewrite Hr, IH. destruct (bool_decide _); reflexivity. Qed.

(** When every join (leave) succeeds, the loop adds (removes) all channels. *)
Lemma join_loop_all w cs j : (forall c, join_room_ok w c = true) -> join_loop w true cs j = list_to_set cs ∪ j.
Proof.
  intros H. unfold join_loop. revert j; induction cs as [|c cs IH]; intros j; simpl.
  - set_solver.
  - rewrite H. simpl. rewrite IH. set_solver.
Qed.

Lemma leave_loop_all w cs j : (forall c, leave_room_ok w c = true) -> leave_loop w true cs j = j ∖ list_to_set cs.
Proof.
  intros H. unfold leave_loop. revert j; induction cs as [|c cs IH]; intros j; simpl.
  - set_solver.
  - rewrite H. simpl. rewrite IH. set_solver.
Qed.

(** [enumerate] keeps a property of every element. *)
Lemma enumerate1_forall (P : stream -> Prop) ss :
  Forall P ss -> Forall (fun p => P p.2) (enumerate1 ss).
Proof.
  unfold enumerate1. generalize 1%nat. intros s H. revert s. induction H as [|x l Hx _ IH]; intros s; simpl; constructor; auto.
Qed.

(** The threshold sets of a completed rank loop. *)
Lemma rank_loop_top w ss ids tj tl ids' :
  rank_loop w (enumerate1 ss) ids ∅ ∅ = (Some (tj, tl), ids') ->
  tj = top_ranked JOIN_THRESHOLD ss /\ tl = top_ranked LEAVE_THRESHOLD ss.
Proof.
  intros R. destruct (rank_loop_ok _ _ _ _ _ _ _ _ R) as [Ej El].
  split; [rewrite Ej|rewrite El]; unfold top_ranked; set_solver.
Qed.

(** Joins and leaves that all succeed. *)
Lemma join_and_leave_all w tj tl m' J :
  tj ⊆ tl -> chat m' = true -> joined_channels m' = J ->
  (forall c, join_room_ok w c = true) -> (forall c, leave_room_ok w c = true) ->
  joined_channels (join_and_leave w (tj ∖ J) (J ∖ tl) m') = (J ∩ tl) ∪ tj.
Proof.
  intros Mono Hc' Hm' Hj Hl. unfold join_and_leave, set_joined. cbn [joined_channels chat].
  rewrite Hc', Hm'. rewrite join_loop_all by exact Hj. rewrite leave_loop_all by exact Hl.
  rewrite !list_to_set_elements_L. clear Hj Hl Hc' Hm'. apply set_eq; intros x; destruct (decide (x ∈ tj)), (decide (x ∈ J)), (decide (x ∈ tl)); set_solver.
Qed.

(** X19: a tick in which nothing fails (streams collected, every user id
    an integer, Redis up, the chat client starting, every join and leave
    succeeding), starting from a consistent state, leaves exactly the
    channels joined before that are still ranked at most 10, plus every
    channel ranked at most 5. *)
Theorem poll_happy_path w m ss :
  collect_streams w = Some ss ->
  Forall (fun st => is_Some (user_id st)) ss ->
  redis_up w = true ->
  chat_start_outcome w = ChatStarted ->
  (forall c, join_room_ok w c = true) ->
  (forall c, leave_room_ok w c = true) ->
  (joined_channels m = ∅ \/ chat m = true) ->
  joined_channels (poll_top_streams w m)
    = (joined_channels m ∩ top_ranked LEAVE_THRESHOLD ss) ∪ top_ranked JOIN_THRESHOLD ss.
Proof.
  intros Hc Hids Hr Hs Hj Hl Hinv.
  pose proof (top_ranked_mono JOIN_THRESHOLD LEAVE_THRESHOLD ss ltac:(unfold JOIN_THRESHOLD, LEAVE_THRESHOLD; lia)) as Mono.
  unfold poll_top_streams. rewrite Hc.
  destruct (rank_loop_some w (enumerate1 ss) (broadcaster_ids m) ∅ ∅ (enumerate1_forall _ _ Hids) Hr)
    as ([tj tl] & ids & R).
  rewrite R. destruct (rank_loop_top _ _ _ _ _ _ R) as [Tj Tl]. subst tj tl. clear R.
  rewrite offline_loop_up by exact Hr.
  unfold manage_chat_connections. cbn [joined_channels set_ids chat].
  destruct (chat m) eqn:Ch; cbn [negb andb].
  - rewrite andb_false_r. apply join_and_leave_all; auto.
  - destruct Hinv as [He|]; [|discriminate].
    destruct (bool_decide (top_ranked JOIN_THRESHOLD ss ∖ joined_channels m = ∅)) eqn:B; cbn [negb andb].
    + apply bool_decide_eq_true in B. unfold join_and_leave, set_joined. cbn [joined_channels chat].
      cbn [set_ids chat joined_channels]. rewrite Ch, join_loop_false, leave_loop_false. rewrite He in B |- *.
      clear - B. apply set_eq; intros x. destruct (decide (x ∈ top_ranked JOIN_THRESHOLD ss)); set_solver.
    + rewrite Hs. apply join_and_leave_all; auto.
Qed.

(** The rank loop only inserts into [broadcaster_ids]. *)
Lemma rank_loop_keeps w rs ids tj tl k :
  is_Some (ids !! k) -> is_Some ((rank_loop w rs ids tj tl).2 !! k).
Proof.
  revert ids tj tl. induction rs as [|[rank st] rs IH]; intros ids tj tl H; simpl; [exact H|].
  destruct (user_id st) as [bid|]; [|exact H].
  assert (H' : is_Some (<[lower (user_login st):=bid]> ids !! k)).
  { destruct (decide (lower (user_login st) = k)) as [<-|Ne];
      [rewrite lookup_insert_eq; eauto|rewrite lookup_insert_ne by exact Ne; exact H]. }
  destruct (redis_up w); [apply IH; exact H'|exact H'].
Qed.

(** Chat management does not touch [broadcaster_ids]. *)
Lemma manage_ids w je le m : broadcaster_ids (manage_chat_connections w je le m) = broadcaster_ids m.
Proof.
  unfold manage_chat_connections. destruct (negb _ && negb _); [destruct (chat_start_outcome w)|]; reflexivity.
Qed.

(** X20: [broadcaster_ids] never loses a login: a tick, failed or not,
    keeps every key it had. *)
Theorem poll_ids_keep w m k :
  is_Some (broadcaster_ids m !! k) -> is_Some (broadcaster_ids (poll_top_streams w m) !! k).
Proof.
  intros H. unfold poll_top_streams. destruct (collect_streams w) as [ss|]; [|exact H].
  pose proof (rank_loop_keeps w (enumerate1 ss) (broadcaster_ids m) ∅ ∅ k H) as K.
  destruct (rank_loop _ _ _ _ _) as [[[tj tl]|] ids]; simpl in K; [|exact K].
  destruct (offline_loop _ _ _); [rewrite manage_ids|]; exact K.
Qed.






(** A fresh service whose chat client fails to start: its constructor
    raises (nothing joined, no client), or [start()] raises after the
    client was assigned (nothing joined). *)
Lemma poll_chat_invariant_witness :
  (joined_channels fresh_monitor = ∅ \/ chat fresh_monitor = true)
  /\ (joined_channels (poll_top_streams (chat_start_world ChatCtorFails) fresh_monitor) = ∅
      \/ chat (poll_top_streams (chat_start_world ChatCtorFails) fresh_monitor) = true)
  /\ joined_channels (poll_top_streams (chat_start_world ChatCtorFails) fresh_monitor) = ∅
  /\ chat (poll_top_streams (chat_start_world ChatCtorFails) fresh_monitor) = false
  /\ (joined_channels (poll_top_streams (chat_start_world ChatStartFails) fresh_monitor) = ∅
      \/ chat (poll_top_streams (chat_start_world ChatStartFails) fresh_monitor) = true)
  /\ joined_channels (poll_top_streams (chat_start_world ChatStartFails) fresh_monitor) = ∅.
Proof.
  assert (H : joined_channels fresh_monitor = ∅ \/ chat fresh_monitor = true) by (left; reflexivity).
  split; [exact H|split; [exact (poll_chat_invariant _ _ H)|split; [|split; [|split]]]].
  - apply (bool_decide_unpack (joined_channels
             (poll_top_streams (chat_start_world ChatCtorFails) fresh_monitor) = ∅)).
    vm_compute. exact I.
  - vm_compute. reflexivity.
  - exact (poll_chat_invariant _ _ H).
  - apply (bool_decide_unpack (joined_channels
             (poll_top_streams (chat_start_world ChatStartFails) fresh_monitor) = ∅)).
    vm_compute. exact I.
Defined.

(** The same tick: "golf" (rank 7) stays, "zulu" goes, ranks 1 to 5 join. *)
Lemma poll_happy_path_witness :
  joined_channels (poll_top_streams (sample_world false sample_streams) chatting_monitor)
  = (joined_channels chatting_monitor ∩ top_ranked LEAVE_THRESHOLD (take 10 sample_streams))
    ∪ top_ranked JOIN_THRESHOLD (take 10 sample_streams).
Proof.
  apply poll_happy_path.
  - reflexivity.
  - repeat constructor; eexists; reflexivity.
  - reflexivity.
  - reflexivity.
  - intros; reflexivity.
  - intros; reflexivity.
  - right; reflexivity.
Defined.

(** "alpha" learnt in a good tick survives a tick whose [get_streams] fails. *)
Lemma poll_ids_keep_witness :
  is_Some (broadcaster_ids (poll_top_streams (sample_world false sample_streams) sample_monitor)
             !! "alpha"%string)
  /\ is_Some (broadcaster_ids (poll_top_streams (sample_world true [])
               (poll_top_streams (sample_world false sample_streams) sample_monitor))
               !! "alpha"%string).
Proof.
  assert (H : is_Some (broadcaster_ids (poll_top_streams (sample_world false sample_streams) sample_monitor)
                         !! "alpha"%string)) by (exists 1%Z; vm_compute; reflexivity).
  split; [exact H|]. exact (poll_ids_keep _ _ _ H).
Defined.


End MonitorMore.
